(** * The chat server of example_chat.cpp, embedded in Rocq

    The server is glue code around an external transport library
    (SteamNetworkingSockets).  The embedding keeps the program's own state
    (the quit flag, the console input queue, the [ChatServer] members) in a
    record, reaches the transport through an interface class, and records
    every observable action (calls into the transport, lines printed) in a
    chronological trace.  Each C++ function is a definition of the same
    name written in a small state-and-abort monad. *)

From Stdlib Require Import ZArith String Ascii Lia.
From stdpp Require Import base list sorting gmap.

Local Open Scope Z_scope.

(** ** Console input: whitespace trimming (lines 175-192) *)

Module Trim.

(** [std::isspace] in the "C" locale, which is the locale of a program that
    never calls [setlocale]: space, and the controls \t \n \v \f \r. *)
Definition isspace (ch : ascii) : bool :=
  let n := N_of_ascii ch in
  ((n =? 32) || ((9 <=? n) && (n <=? 13)))%N.

(** [std::find_if(s.begin(), s.end(), !isspace)] followed by
    [s.erase(s.begin(), it)]: the leading run of whitespace goes. *)
Fixpoint ltrim (s : string) : string :=
  match s with
  | EmptyString => EmptyString
  | String ch s' => if negb (isspace ch) then s else ltrim s'
  end.

Fixpoint rev_string (s : string) : string :=
  match s with
  | EmptyString => EmptyString
  | String ch s' => String.append (rev_string s') (String ch EmptyString)
  end.

(** [rtrim] runs the same search over the reverse iterators of [s] and
    erases from [.base()] of the hit to the end: what goes is the leading
    whitespace run of the reversed string. *)
Definition rtrim (s : string) : string :=
  rev_string (ltrim (rev_string s)).

(** The two calls made by [LocalUserInput_GetNext], in its order. *)
Definition trim (s : string) : string := rtrim (ltrim s).

Fixpoint all_space (s : string) : bool :=
  match s with
  | EmptyString => true
  | String ch s' => isspace ch && all_space s'
  end.

Definition head_char (s : string) : option ascii :=
  match s with
  | EmptyString => None
  | String ch _ => Some ch
  end.

Definition last_char (s : string) : option ascii := head_char (rev_string s).

(** A string is trimmed when neither end carries whitespace. *)
Definition trimmed (s : string) : Prop :=
  (forall ch, head_char s = Some ch -> isspace ch = false) /\
  (forall ch, last_char s = Some ch -> isspace ch = false).

End Trim.

(** ** C strings *)

Module CStr.

Definition NUL : ascii := Ascii.zero.

(** What a [const char *] reader sees of a buffer: the bytes before the
    first NUL.  It is [std::string(szLine)], [strlen] and [strcmp]'s view. *)
Fixpoint c_str (s : string) : string :=
  match s with
  | EmptyString => EmptyString
  | String ch s' => if Ascii.eqb ch NUL then EmptyString else String ch (c_str s')
  end.

Definition strlen (s : string) : Z := Z.of_nat (String.length (c_str s)).

(** [strcmp(a, b)]: zero exactly when the two C strings are equal.  Of a
    non-zero result the C library fixes the sign only (that of the first
    differing unsigned byte); the model takes -1 and 1 for it, and the
    program only ever compares the result with 0 (line 342). *)
Definition strcmp (a b : string) : Z :=
  match String.compare (c_str a) (c_str b) with
  | Eq => 0
  | Lt => -1
  | Gt => 1
  end.

End CStr.

(** ** Types of the transport library named by the program *)

Abbreviation HSteamNetConnection := Z (only parsing).
Abbreviation HSteamListenSocket := Z (only parsing).
Abbreviation HSteamNetPollGroup := Z (only parsing).

(** Constants of the library's headers (steamnetworkingtypes.h), which are
    not part of the repository; the program only compares against them or
    passes them on. *)
Definition k_HSteamNetConnection_Invalid : HSteamNetConnection := 0.
Definition k_HSteamListenSocket_Invalid : HSteamListenSocket := 0.
Definition k_HSteamNetPollGroup_Invalid : HSteamNetPollGroup := 0.
Definition k_nSteamNetworkingSend_UnreliableNoDelay : Z := 5.

Inductive EResult :=
  | k_EResultOK
  | k_EResultOther (code : Z).

Definition EResult_is_OK (r : EResult) : bool :=
  match r with k_EResultOK => true | k_EResultOther _ => false end.

Inductive ESteamNetworkingConnectionState :=
  | k_ESteamNetworkingConnectionState_None
  | k_ESteamNetworkingConnectionState_Connecting
  | k_ESteamNetworkingConnectionState_FindingRoute
  | k_ESteamNetworkingConnectionState_Connected
  | k_ESteamNetworkingConnectionState_ClosedByPeer
  | k_ESteamNetworkingConnectionState_ProblemDetectedLocally
  | k_ESteamNetworkingConnectionState_FinWait
  | k_ESteamNetworkingConnectionState_Linger
  | k_ESteamNetworkingConnectionState_Dead.

Global Instance ESteamNetworkingConnectionState_eq_dec :
  EqDecision ESteamNetworkingConnectionState.
Proof. solve_decision. Defined.

Record SteamNetConnectionInfo_t := {
  m_eState : ESteamNetworkingConnectionState;
  m_eEndReason : Z;
  m_szEndDebug : string;
  m_szConnectionDescription : string;
}.

Record SteamNetConnectionStatusChangedCallback_t := {
  m_hConn : HSteamNetConnection;
  m_info : SteamNetConnectionInfo_t;
  m_eOldState : ESteamNetworkingConnectionState;
}.

(** A received message: the sender's handle and the [m_cbSize] payload bytes
    found at [m_pData]. *)
Record ISteamNetworkingMessage := {
  m_conn : HSteamNetConnection;
  m_pData : string;
}.

(** [struct Client_t] has no members (the nickname is commented out). *)
Record Client_t := mkClient_t {}.

(** ** Observable actions *)

(** An argument of a printf-style call. *)
Inductive PrintfArg :=
  | ArgStr (s : string)
  | ArgInt (n : Z).

(** One entry per call into the transport and per line logged, with the
    arguments of the call and, where the program looks at it, the result. *)
Inductive Event :=
  | EvPrintf (fmt : string) (args : list PrintfArg)
  | EvFatalError (fmt : string) (args : list PrintfArg)
  | EvCreateListenSocketIP (nPort : Z) (ret : HSteamListenSocket)
  | EvCreatePollGroup (ret : HSteamNetPollGroup)
  | EvAcceptConnection (hConn : HSteamNetConnection) (ret : EResult)
  | EvSetConnectionPollGroup (hConn : HSteamNetConnection)
      (hPollGroup : HSteamNetPollGroup) (ret : bool)
  | EvCloseConnection (hConn : HSteamNetConnection) (nReason : Z)
      (pszDebug : option string) (bEnableLinger : bool)
  | EvSendMessageToConnection (hConn : HSteamNetConnection) (pData : string)
      (cbData : Z) (nSendFlags : Z)
  | EvReceiveMessagesOnPollGroup (hPollGroup : HSteamNetPollGroup)
      (nMaxMessages : Z) (ret : Z) (msg : option ISteamNetworkingMessage)
  | EvRelease (msg : ISteamNetworkingMessage)
  | EvRunCallbacks (n : nat)
  | EvCloseListenSocket (hSocket : HSteamListenSocket)
  | EvDestroyPollGroup (hPollGroup : HSteamNetPollGroup)
  | EvSleep (ms : Z).

(** ** The transport collaborator

    [ISteamNetworkingSockets] is the abstract C++ interface behind
    [m_pInterface].  Its implementation is outside the repository, so the
    server is parametrised by any implementation over any transport state
    [T].  [RunCallbacks] hands over the status changes that the library
    would deliver, in queue order, to the registered callback. *)
Class ISteamNetworkingSockets (T : Type) := {
  CreateListenSocketIP : Z -> T -> HSteamListenSocket * T;
  CreatePollGroup : T -> HSteamNetPollGroup * T;
  AcceptConnection : HSteamNetConnection -> T -> EResult * T;
  SetConnectionPollGroup :
    HSteamNetConnection -> HSteamNetPollGroup -> T -> bool * T;
  CloseConnection :
    HSteamNetConnection -> Z -> option string -> bool -> T -> bool * T;
  SendMessageToConnection :
    HSteamNetConnection -> string -> Z -> Z -> T -> EResult * T;
  ReceiveMessagesOnPollGroup :
    HSteamNetPollGroup -> Z -> T -> (Z * option ISteamNetworkingMessage) * T;
  Release : ISteamNetworkingMessage -> T -> T;
  RunCallbacks : T -> list SteamNetConnectionStatusChangedCallback_t * T;
  CloseListenSocket : HSteamListenSocket -> T -> bool * T;
  DestroyPollGroup : HSteamNetPollGroup -> T -> bool * T;
}.

(** ** Program state and the monad of the embedding *)

Section Server.

Context {T : Type} `{iface : ISteamNetworkingSockets T}.

(** The globals ([g_bQuit], [queueUserInput]), the members of the one
    [ChatServer] object, the transport behind [m_pInterface], and the
    actions observed so far, oldest first. *)
Record World := mkWorld {
  g_bQuit : bool;
  queueUserInput : list string;
  m_hListenSock : HSteamListenSocket;
  m_hPollGroup : HSteamNetPollGroup;
  m_mapClients : gmap Z Client_t;
  transport : T;
  trace : list Event;
}.

Definition set_g_bQuit (b : bool) (w : World) : World :=
  mkWorld b (queueUserInput w) (m_hListenSock w) (m_hPollGroup w)
    (m_mapClients w) (transport w) (trace w).
Definition set_queueUserInput (q : list string) (w : World) : World :=
  mkWorld (g_bQuit w) q (m_hListenSock w) (m_hPollGroup w)
    (m_mapClients w) (transport w) (trace w).
Definition set_m_hListenSock (h : HSteamListenSocket) (w : World) : World :=
  mkWorld (g_bQuit w) (queueUserInput w) h (m_hPollGroup w)
    (m_mapClients w) (transport w) (trace w).
Definition set_m_hPollGroup (h : HSteamNetPollGroup) (w : World) : World :=
  mkWorld (g_bQuit w) (queueUserInput w) (m_hListenSock w) h
    (m_mapClients w) (transport w) (trace w).
Definition set_m_mapClients (m : gmap Z Client_t) (w : World) : World :=
  mkWorld (g_bQuit w) (queueUserInput w) (m_hListenSock w) (m_hPollGroup w)
    m (transport w) (trace w).
Definition set_transport (t : T) (w : World) : World :=
  mkWorld (g_bQuit w) (queueUserInput w) (m_hListenSock w) (m_hPollGroup w)
    (m_mapClients w) t (trace w).
Definition log (e : Event) (w : World) : World :=
  mkWorld (g_bQuit w) (queueUserInput w) (m_hListenSock w) (m_hPollGroup w)
    (m_mapClients w) (transport w) (trace w ++ [e]).

(** Ways a run ends other than by returning.  [FatalExit] is [NukeProcess]
    reached through [FatalError]; [AssertionFailed] is a failed [assert]
    (the file includes <assert.h> and does not define NDEBUG);
    [UndefinedBehaviour] is a dereference of [end()] or of a null pointer,
    a read of a variable that was never assigned, or a write past the end
    of a buffer. *)
Inductive StopReason := FatalExit | AssertionFailed | UndefinedBehaviour.

Inductive Outcome (A : Type) :=
  | Ok (a : A) (w : World)
  | Stop (r : StopReason) (w : World)
  | OutOfFuel.
Global Arguments Ok {A} a w.
Global Arguments Stop {A} r w.
Global Arguments OutOfFuel {A}.

Definition M (A : Type) : Type := World -> Outcome A.

Global Instance M_ret : MRet M := fun A a w => Ok a w.
Global Instance M_bind : MBind M := fun A B f m w =>
  match m w with
  | Ok a w' => f a w'
  | Stop r w' => Stop r w'
  | OutOfFuel => OutOfFuel
  end.

Definition get {A} (f : World -> A) : M A := fun w => Ok (f w) w.
Definition modify (f : World -> World) : M unit := fun w => Ok tt (f w).
Definition stop {A} (r : StopReason) : M A := fun w => Stop r w.

(** A call into the transport: run it on the transport state and record
    the event [ev] built from its result. *)
Definition call {A} (f : T -> A * T) (ev : A -> Event) : M A := fun w =>
  let '(a, t) := f (transport w) in
  Ok a (log (ev a) (set_transport t w)).

Definition assert (b : bool) : M unit :=
  if b then mret tt else stop AssertionFailed.

(** The value of a local variable that is declared and never assigned:
    reading it is undefined. *)
Definition read_unassigned {A} : M A := stop UndefinedBehaviour.

(** [sprintf(buf, ...)] into a [char buf[size]], of which only the size
    matters here: the formatted [text] and its terminating NUL are written,
    past the end of the buffer when they do not fit. *)
Definition sprintf_into (size : Z) (text : string) : M unit :=
  if size <? CStr.strlen text + 1 then stop UndefinedBehaviour else mret tt.

Fixpoint for_each {A} (l : list A) (body : A -> M unit) : M unit :=
  match l with
  | [] => mret tt
  | x :: l' => body x ;; for_each l' body
  end.

(** [std::map] iterates in increasing key order. *)
Definition map_keys_in_order (m : gmap Z Client_t) : list Z :=
  merge_sort Z.le (elements (dom m)).

(** ** Logging (lines 44-91) *)

(** A format string of the source that ends in backslash-n. *)
Definition nl (fmt : string) : string :=
  String.append fmt (String "010"%char EmptyString).

(** [Printf]: format, strip one trailing newline, print through
    [DebugOutput] with type Msg.  The trace keeps format and arguments. *)
Definition Printf (fmt : string) (args : list PrintfArg) : M unit :=
  modify (log (EvPrintf fmt args)).

(** [FatalError]: the same with type Bug, for which [DebugOutput] flushes
    and calls [NukeProcess(1)]; the process ends there. *)
Definition FatalError (fmt : string) (args : list PrintfArg) : M unit :=
  modify (log (EvFatalError fmt args)) ;; stop FatalExit.

(** ** Console input (lines 144-210) *)

(** The body of the reader thread's lambda, run over what successive
    [fgets] calls store in [szLine]; when the list is exhausted [fgets]
    fails.  [queueUserInput.push(std::string(szLine))] copies the buffer
    up to its first NUL. *)
Fixpoint LocalUserInput_thread (stdin : list string) : M unit :=
  fun w =>
    if g_bQuit w then Ok tt w
    else match stdin with
         | [] =>
             if g_bQuit w then Ok tt w
             else (modify (set_g_bQuit true) ;;
                   Printf (nl "Failed to read on stdin, quitting") []) w
         | szLine :: stdin' =>
             (modify (fun w => set_queueUserInput
                        (queueUserInput w ++ [CStr.c_str szLine]) w) ;;
              LocalUserInput_thread stdin') w
         end.

(** The loop of [LocalUserInput_GetNext] over the queue: returns
    [got_input], the final [result] and what is left of the queue. *)
Fixpoint GetNext_loop (queue : list string) (result : string)
  : bool * string * list string :=
  match queue with
  | [] => (false, result, [])
  | front :: queue' =>
      let result := Trim.rtrim (Trim.ltrim front) in
      let got_input := negb (String.eqb result "") in
      if got_input then (true, result, queue')
      else GetNext_loop queue' result
  end.

(** [LocalUserInput_GetNext], lines 196-210.  [result] is an in-out
    reference; it comes back with [got_input].  The mutex makes the whole
    call one step with respect to the reader thread. *)
Definition LocalUserInput_GetNext (result : string) : M (bool * string) :=
  fun w =>
    let '(got_input, result, queue) := GetNext_loop (queueUserInput w) result in
    Ok (got_input, result) (set_queueUserInput queue w).

(** ** ChatServer (lines 218-458) *)

(** [SendStringToClient], lines 284-288.  The result of the send is
    dropped. *)
Definition SendStringToClient (conn : HSteamNetConnection) (str : string)
  : M unit :=
  Printf "Attempting to send string to client" [] ;;
  call (SendMessageToConnection conn str (CStr.strlen str)
          k_nSteamNetworkingSend_UnreliableNoDelay)
       (fun _ => EvSendMessageToConnection conn str (CStr.strlen str)
                   k_nSteamNetworkingSend_UnreliableNoDelay) ;;
  mret tt.

(** [SendStringToAllClients], lines 290-297. *)
Definition SendStringToAllClients (str : string)
    (except : HSteamNetConnection) : M unit :=
  clients ← get m_mapClients;
  for_each (map_keys_in_order clients) (fun c =>
    if negb (c =? except) then SendStringToClient c str else mret tt).

Inductive LoopCtl := Continue | Break.

(** One pass through the body of the loop of [PollIncomingMessages],
    lines 305-332.  [pIncomingMsg] is [None] for a null pointer and
    [itClient] is [None] for [end()]; dereferencing either is undefined.
    Line 330 formats "test: " and [cmd] into [char temp[1024]] (line 301);
    nothing reads [temp] afterwards, but the write has to fit. *)
Definition PollIncomingMessages_body : M LoopCtl :=
  hPollGroup ← get m_hPollGroup;
  '(numMsgs, pIncomingMsg) ←
     call (ReceiveMessagesOnPollGroup hPollGroup 1)
          (fun r => EvReceiveMessagesOnPollGroup hPollGroup 1 r.1 r.2);
  if numMsgs =? 0 then mret Break
  else
    (if numMsgs <? 0 then FatalError "Error checking for messages" []
     else mret tt) ;;
    assert ((numMsgs =? 1) && bool_decide (is_Some pIncomingMsg)) ;;
    match pIncomingMsg with
    | None => stop UndefinedBehaviour
    | Some msg =>
        itClient ← get (fun w => m_mapClients w !! m_conn msg);
        let sCmd := m_pData msg in
        let cmd := CStr.c_str sCmd in
        call (fun t => (tt, Release msg t)) (fun _ => EvRelease msg) ;;
        sprintf_into 1024 (String.append "test: " cmd) ;;
        match itClient with
        | None => stop UndefinedBehaviour
        | Some _ => SendStringToAllClients cmd (m_conn msg)
        end ;;
        mret Continue
    end.

(** [PollIncomingMessages], lines 299-334: the loop runs until the quit
    flag is set or the transport reports no message. *)
Fixpoint PollIncomingMessages (fuel : nat) : M unit :=
  fun w =>
    if g_bQuit w then Ok tt w
    else match fuel with
         | O => OutOfFuel
         | S fuel' =>
             (ctl ← PollIncomingMessages_body;
              match ctl with
              | Break => mret tt
              | Continue => PollIncomingMessages fuel'
              end) w
         end.

(** The body of the loop of [PollLocalUserInput] for one line [cmd],
    lines 342-350. *)
Definition PollLocalUserInput_body (cmd : string) : M LoopCtl :=
  if CStr.strcmp cmd "/quit" =? 0 then
    modify (set_g_bQuit true) ;;
    Printf "Shutting down server" [] ;;
    mret Break
  else
    Printf "The server only knows one command: '/quit'" [] ;;
    mret Continue.

Fixpoint PollLocalUserInput_loop (fuel : nat) (cmd : string) : M unit :=
  fun w =>
    if g_bQuit w then Ok tt w
    else match fuel with
         | O => OutOfFuel
         | S fuel' =>
             ('(got_input, cmd) ← LocalUserInput_GetNext cmd;
              if got_input : bool then
                ctl ← PollLocalUserInput_body cmd;
                match ctl with
                | Break => mret tt
                | Continue => PollLocalUserInput_loop fuel' cmd
                end
              else mret tt) w
         end.

(** [PollLocalUserInput], lines 337-352.  Every pass that goes round
    again has taken a line off the queue, so one pass more than the queue
    is long is enough. *)
Definition PollLocalUserInput : M unit :=
  fun w =>
    PollLocalUserInput_loop (S (length (queueUserInput w))) EmptyString w.

(** [m_pInterface->CloseConnection( hConn, 0, nullptr, false )], the call
    made at lines 406, 422 and 430. *)
Definition CloseConnection_now (hConn : HSteamNetConnection) : M unit :=
  call (CloseConnection hConn 0 None false)
       (fun _ => EvCloseConnection hConn 0 None false) ;;
  mret tt.

(** [OnSteamNetConnectionStatusChanged], lines 354-445.  [itClient] is the
    result of [find]: [None] stands for [end()].  In the closed cases
    [pszDebugLogAction] is declared at line 380 and never assigned before
    it is passed to [Printf] at line 387.  The block of the Connecting
    case has no [break] of its own on success and falls through to the
    Connected case, which only breaks. *)
Definition OnSteamNetConnectionStatusChanged
    (pInfo : SteamNetConnectionStatusChangedCallback_t) : M unit :=
  match m_eState (m_info pInfo) with
  | k_ESteamNetworkingConnectionState_None => mret tt
  | k_ESteamNetworkingConnectionState_ClosedByPeer
  | k_ESteamNetworkingConnectionState_ProblemDetectedLocally =>
      (if bool_decide
            (m_eOldState pInfo = k_ESteamNetworkingConnectionState_Connected)
       then
         itClient ← get (fun w => m_mapClients w !! m_hConn pInfo);
         assert (bool_decide (is_Some itClient)) ;;
         pszDebugLogAction ← read_unassigned;
         Printf (nl "Connection %s %s, reason %d: %s")
           [ArgStr (m_szConnectionDescription (m_info pInfo));
            ArgStr pszDebugLogAction;
            ArgInt (m_eEndReason (m_info pInfo));
            ArgStr (m_szEndDebug (m_info pInfo))] ;;
         modify (fun w =>
           set_m_mapClients (delete (m_hConn pInfo) (m_mapClients w)) w)
       else
         assert (bool_decide
           (m_eOldState pInfo = k_ESteamNetworkingConnectionState_Connecting))) ;;
      CloseConnection_now (m_hConn pInfo)
  | k_ESteamNetworkingConnectionState_Connecting =>
      found ← get (fun w => m_mapClients w !! m_hConn pInfo);
      assert (bool_decide (found = None)) ;;
      Printf "Connection request from %s"
        [ArgStr (m_szConnectionDescription (m_info pInfo))] ;;
      modify (fun w =>
        set_m_mapClients (<[m_hConn pInfo := mkClient_t]> (m_mapClients w)) w) ;;
      res ← call (AcceptConnection (m_hConn pInfo))
                 (EvAcceptConnection (m_hConn pInfo));
      if negb (EResult_is_OK res) then
        CloseConnection_now (m_hConn pInfo) ;;
        Printf "Can't accept connection.  (It was already closed?)" []
      else
        hPollGroup ← get m_hPollGroup;
        ok ← call (SetConnectionPollGroup (m_hConn pInfo) hPollGroup)
                  (EvSetConnectionPollGroup (m_hConn pInfo) hPollGroup);
        if negb ok then
          CloseConnection_now (m_hConn pInfo) ;;
          Printf "Failed to set poll group?" []
        else mret tt
  | k_ESteamNetworkingConnectionState_Connected => mret tt
  | _ => mret tt
  end.

(** [PollConnectionStateChanges], lines 453-457: [RunCallbacks] invokes
    the registered callback, hence the handler above, once per pending
    status change. *)
Definition PollConnectionStateChanges : M unit :=
  pending ← call RunCallbacks (fun cbs => EvRunCallbacks (length cbs));
  for_each pending OnSteamNetConnectionStatusChanged.

(** The loop of [Run], lines 241-247. *)
Fixpoint Run_loop (fuel : nat) : M unit :=
  fun w =>
    if g_bQuit w then Ok tt w
    else match fuel with
         | O => OutOfFuel
         | S fuel' =>
             (PollIncomingMessages fuel ;;
              PollConnectionStateChanges ;;
              PollLocalUserInput ;;
              modify (log (EvSleep 10)) ;;
              Run_loop fuel') w
         end.

(** The body of the range-for of [Run], lines 251-262, for the entry with
    key [it_first]. *)
Definition Run_shutdown_body (it_first : HSteamNetConnection) : M unit :=
  SendStringToClient it_first "Server is shutting down.  Goodbye." ;;
  call (CloseConnection it_first 0 (Some "Server Shutdown"%string) true)
       (fun _ => EvCloseConnection it_first 0
                   (Some "Server Shutdown"%string) true) ;;
  mret tt.

(** What [Run] does once the loop is left, lines 249-269.  The range-for
    copies each map entry ([auto it]) and walks the map in key order. *)
Definition Run_shutdown : M unit :=
  Printf (nl "Closing connections...") [] ;;
  clients ← get m_mapClients;
  for_each (map_keys_in_order clients) Run_shutdown_body ;;
  modify (set_m_mapClients ∅) ;;
  hListenSock ← get m_hListenSock;
  call (CloseListenSocket hListenSock)
       (fun _ => EvCloseListenSocket hListenSock) ;;
  modify (set_m_hListenSock k_HSteamListenSocket_Invalid) ;;
  hPollGroup ← get m_hPollGroup;
  call (DestroyPollGroup hPollGroup)
       (fun _ => EvDestroyPollGroup hPollGroup) ;;
  modify (set_m_hPollGroup k_HSteamNetPollGroup_Invalid).

(** The start of [Run], lines 225-239. *)
Definition Run_listen (nPort : Z) : M unit :=
  hListenSock ← call (CreateListenSocketIP nPort)
                     (EvCreateListenSocketIP nPort);
  modify (set_m_hListenSock hListenSock) ;;
  (if hListenSock =? k_HSteamListenSocket_Invalid
   then FatalError "Failed to listen on port %d" [ArgInt nPort]
   else mret tt) ;;
  hPollGroup ← call CreatePollGroup EvCreatePollGroup;
  modify (set_m_hPollGroup hPollGroup) ;;
  (if hPollGroup =? k_HSteamNetPollGroup_Invalid
   then FatalError "Failed to listen on port %d" [ArgInt nPort]
   else mret tt) ;;
  Printf (nl "Server listening on port %d") [ArgInt nPort].

(** [ChatServer::Run], lines 221-270. *)
Definition Run (fuel : nat) (nPort : Z) : M unit :=
  Run_listen nPort ;;
  Run_loop fuel ;;
  Run_shutdown.

End Server.

(** ** What the trace says about the transport's connections

    The transport's own connection table is out of reach, but the server
    knows this much from its own calls: a connection is accepted once
    [AcceptConnection] has returned OK for it, belongs to the poll group
    once [SetConnectionPollGroup] has returned true for it, and is neither
    after the server has called [CloseConnection] on it. *)
Definition accepted_open_step (s : gset Z) (e : Event) : gset Z :=
  match e with
  | EvAcceptConnection h k_EResultOK => s ∪ {[h]}
  | EvCloseConnection h _ _ _ => s ∖ {[h]}
  | _ => s
  end.

Definition accepted_open (tr : list Event) : gset Z :=
  fold_left accepted_open_step tr ∅.

Definition in_poll_group_step (s : gset Z) (e : Event) : gset Z :=
  match e with
  | EvSetConnectionPollGroup h _ true => s ∪ {[h]}
  | EvCloseConnection h _ _ _ => s ∖ {[h]}
  | _ => s
  end.

Definition in_poll_group (tr : list Event) : gset Z :=
  fold_left in_poll_group_step tr ∅.

(** The handles an [EvSendMessageToConnection] was addressed to, in order. *)
Definition send_targets (tr : list Event) : list Z :=
  omap (fun e => match e with
                 | EvSendMessageToConnection h _ _ _ => Some h
                 | _ => None
                 end) tr.

Section Invariants.
Context {T : Type}.

(** The invariant of the data model: whatever is registered is an
    accepted connection that the server has not closed. *)
Definition registry_agrees (w : @World T) : Prop :=
  ∀ h, h ∈ dom (m_mapClients w) → h ∈ accepted_open (trace w).

(** The half that message handling relies on: whatever can still deliver
    messages through the poll group is registered. *)
Definition senders_registered (w : @World T) : Prop :=
  in_poll_group (trace w) ⊆ dom (m_mapClients w).

End Invariants.

(** ** A scripted transport

    A stand-in for the library that answers from a script; it is used to
    run the server on concrete inputs. *)
Module Scripted.

Record Script := mkScript {
  listen_socket : HSteamListenSocket;
  poll_group : HSteamNetPollGroup;
  refused : list Z;
  not_pollable : list Z;
  inbox : list (Z * option ISteamNetworkingMessage);
  callbacks : list (list SteamNetConnectionStatusChangedCallback_t);
}.

Definition mem (h : Z) (l : list Z) : bool := existsb (Z.eqb h) l.

Definition receive (s : Script)
  : (Z * option ISteamNetworkingMessage) * Script :=
  match inbox s with
  | [] => ((0, None), s)
  | r :: rest =>
      (r, mkScript (listen_socket s) (poll_group s) (refused s)
            (not_pollable s) rest (callbacks s))
  end.

Definition run_callbacks (s : Script)
  : list SteamNetConnectionStatusChangedCallback_t * Script :=
  match callbacks s with
  | [] => ([], s)
  | b :: rest =>
      (b, mkScript (listen_socket s) (poll_group s) (refused s)
            (not_pollable s) (inbox s) rest)
  end.

Global Instance sockets : ISteamNetworkingSockets Script := {|
  CreateListenSocketIP _ s := (listen_socket s, s);
  CreatePollGroup s := (poll_group s, s);
  AcceptConnection h s :=
    (if mem h (refused s) then k_EResultOther 8 else k_EResultOK, s);
  SetConnectionPollGroup h _ s := (negb (mem h (not_pollable s)), s);
  CloseConnection _ _ _ _ s := (true, s);
  SendMessageToConnection _ _ _ _ s := (k_EResultOK, s);
  ReceiveMessagesOnPollGroup _ _ s := receive s;
  Release _ s := s;
  RunCallbacks s := run_callbacks s;
  CloseListenSocket _ s := (true, s);
  DestroyPollGroup _ s := (true, s);
|}.

Definition quiet : Script := mkScript 1 1 [] [] [] [].

(** The state of a server that listens on socket [1] with poll group [1]
    and has no client yet. *)
Definition world (s : Script) (clients : gmap Z Client_t)
    (queue : list string) : @World Script :=
  mkWorld false queue 1 1 clients s [].

Definition event (h : Z) (st old : ESteamNetworkingConnectionState)
  : SteamNetConnectionStatusChangedCallback_t :=
  {| m_hConn := h;
     m_info := {| m_eState := st; m_eEndReason := 0;
                  m_szEndDebug := ""; m_szConnectionDescription := "peer" |};
     m_eOldState := old |}.

End Scripted.

(** ** Vocabulary of the statements *)

Section Vocabulary.

Context {T : Type} `{iface : ISteamNetworkingSockets T}.
Implicit Types (w : @World T) (h : Z)
  (pInfo : SteamNetConnectionStatusChangedCallback_t).

(** [same_memory w w']: the program variables of [w] and [w'] agree; only
    the transport and the trace may differ. *)
Definition same_memory w w' : Prop :=
  g_bQuit w' = g_bQuit w ∧ queueUserInput w' = queueUserInput w ∧
  m_hListenSock w' = m_hListenSock w ∧ m_hPollGroup w' = m_hPollGroup w ∧
  m_mapClients w' = m_mapClients w.

(** The two trace entries of one [SendStringToClient]. *)
Definition send_events (str : string) (c : Z) : list Event :=
  [EvPrintf "Attempting to send string to client" [];
   EvSendMessageToConnection c str (CStr.strlen str)
     k_nSteamNetworkingSend_UnreliableNoDelay].

(** An event that neither assigns a poll group nor closes a connection. *)
Definition poll_group_neutral (e : Event) : Prop :=
  match e with
  | EvSetConnectionPollGroup _ _ _ | EvCloseConnection _ _ _ _ => False
  | _ => True
  end.

(** The trace of the Connecting case, by the results of the two calls. *)
Definition connecting_events (desc : string) (h pg : Z) (res : EResult)
    (ok : bool) : list Event :=
  [EvPrintf "Connection request from %s" [ArgStr desc];
   EvAcceptConnection h res]
  ++ (if EResult_is_OK res
      then EvSetConnectionPollGroup h pg ok
           :: (if ok then []
               else [EvCloseConnection h 0 None false;
                     EvPrintf "Failed to set poll group?" []])
      else [EvCloseConnection h 0 None false;
            EvPrintf "Can't accept connection.  (It was already closed?)" []]).

(** The trace of a closed case that returns. *)
Definition closed_events pInfo : list Event :=
  [EvCloseConnection (m_hConn pInfo) 0 None false].

Definition is_closed_state (s : ESteamNetworkingConnectionState) : Prop :=
  s = k_ESteamNetworkingConnectionState_ClosedByPeer ∨
  s = k_ESteamNetworkingConnectionState_ProblemDetectedLocally.

(** A step that leaves the registry alone and neither assigns a poll group
    nor closes a connection. *)
Definition quiet_step w w' : Prop :=
  m_mapClients w' = m_mapClients w ∧
  ∃ evs, trace w' = trace w ++ evs ∧ Forall poll_group_neutral evs.

(** The phases of [Run] before shutdown, and the reader thread. *)
Inductive server_step : @World T → @World T → Prop :=
  | step_listen nPort w w' :
      Run_listen nPort w = Ok tt w' → server_step w w'
  | step_messages fuel w w' :
      PollIncomingMessages fuel w = Ok tt w' → server_step w w'
  | step_status w w' :
      PollConnectionStateChanges w = Ok tt w' → server_step w w'
  | step_console w w' :
      PollLocalUserInput w = Ok tt w' → server_step w w'
  | step_reader stdin w w' :
      LocalUserInput_thread stdin w = Ok tt w' → server_step w w'.

(** A fresh server has no client and has done nothing yet. *)
Inductive reachable : @World T → Prop :=
  | reachable_start w :
      m_mapClients w = ∅ → trace w = [] → reachable w
  | reachable_step w w' :
      reachable w → server_step w w' → reachable w'.

(** What shutdown does for one client: the goodbye, then the lingering
    close. *)
Definition shutdown_events (h : Z) : list Event :=
  [EvPrintf "Attempting to send string to client" [];
   EvSendMessageToConnection h "Server is shutting down.  Goodbye."
     (CStr.strlen "Server is shutting down.  Goodbye.")
     k_nSteamNetworkingSend_UnreliableNoDelay;
   EvCloseConnection h 0 (Some "Server Shutdown"%string) true].

End Vocabulary.

(** ** Concrete states and inputs *)

Module Runs.
Import Scripted.

Definition client : Client_t := mkClient_t.

Definition refusing : Script := mkScript 1 1 [7] [] [] [].

Definition hello : ISteamNetworkingMessage :=
  {| m_conn := 1; m_pData := "hello" |}.

Definition with_hello : Script := mkScript 1 1 [] [] [(1, Some hello)] [].

Definition three_clients : gmap Z Client_t :=
  <[3 := client]> (<[1 := client]> (<[2 := client]> ∅)).

(** Client 1 was accepted and put into the poll group earlier. *)
Definition chatting : @World Script :=
  mkWorld false [] 1 1 three_clients with_hello
    [EvAcceptConnection 1 k_EResultOK; EvSetConnectionPollGroup 1 1 true].

Definition stranger : @World Script :=
  mkWorld false [] 1 1 (delete 1 three_clients) with_hello [].

Definition quitting : @World Script :=
  mkWorld true [] 1 1 three_clients quiet [].

End Runs.

(** ** Further vocabulary: logging text, queue contents, payloads *)

(** Whether a buffer holds a NUL byte. *)
Fixpoint has_NUL (s : string) : bool :=
  match s with
  | EmptyString => false
  | String ch s' => Ascii.eqb ch CStr.NUL || has_NUL s'
  end.

(** What [Printf] and [FatalError] do to the formatted [text] before they
    hand it to [DebugOutput] (lines 74-76 and 87-89): [nl] points at the
    last character of the C string, and a newline found there is
    overwritten with NUL.  For the empty text [nl] lies before [text] and
    nothing is written. *)
Definition strip_newline (text : string) : string :=
  match Trim.rev_string (CStr.c_str text) with
  | EmptyString => CStr.c_str text
  | String ch r =>
      if Ascii.eqb ch "010"%char then Trim.rev_string r else CStr.c_str text
  end.

(** The lines of a queue as the consumer gets to see them: trimmed, the
    blank ones left out, in queue order. *)
Definition delivered (queue : list string) : list string :=
  filter (λ cmd, cmd ≠ EmptyString) (Trim.trim <$> queue).

(** The test of [PollLocalUserInput] for the quit directive. *)
Definition is_quit (cmd : string) : bool := CStr.strcmp cmd "/quit" =? 0.

Definition unknown_command : Event :=
  EvPrintf "The server only knows one command: '/quit'" [].

(** Data and length of every [EvSendMessageToConnection], in order. *)
Definition send_payloads (tr : list Event) : list (string * Z) :=
  omap (fun e => match e with
                 | EvSendMessageToConnection _ pData cbData _ =>
                     Some (pData, cbData)
                 | _ => None
                 end) tr.

(** The events that only print a line. *)
Definition is_print (e : Event) : Prop :=
  match e with EvPrintf _ _ => True | _ => False end.

(** The events one pass of the message loop can add. *)
Definition is_message_event (e : Event) : Prop :=
  match e with
  | EvReceiveMessagesOnPollGroup _ _ _ _ | EvRelease _ | EvPrintf _ _
  | EvSendMessageToConnection _ _ _ _ => True
  | _ => False
  end.

(** The connection states for which the status handler only breaks. *)
Definition is_ignored_state (s : ESteamNetworkingConnectionState) : Prop :=
  s ≠ k_ESteamNetworkingConnectionState_Connecting ∧
  s ≠ k_ESteamNetworkingConnectionState_ClosedByPeer ∧
  s ≠ k_ESteamNetworkingConnectionState_ProblemDetectedLocally.

(** An event that accepts nothing, assigns no poll group and closes
    nothing. *)
Definition keeps_connections (e : Event) : Prop :=
  match e with
  | EvAcceptConnection _ _ | EvSetConnectionPollGroup _ _ _
  | EvCloseConnection _ _ _ _ => False
  | _ => True
  end.

Section MoreVocabulary.
Context {T : Type}.

(** A step that leaves the registry and the connections alone. *)
Definition calm_step (w w' : @World T) : Prop :=
  m_mapClients w' = m_mapClients w ∧
  ∃ evs, trace w' = trace w ++ evs ∧ Forall keeps_connections evs.

(** Whatever the server has accepted and not closed is registered. *)
Definition accepted_registered (w : @World T) : Prop :=
  accepted_open (trace w) ⊆ dom (m_mapClients w).

End MoreVocabulary.

(** ** More concrete states and inputs *)

Module MoreRuns.
Import Scripted.

Definition with_NUL : ISteamNetworkingMessage :=
  {| m_conn := 1; m_pData := String "a" (String "b" (String CStr.NUL "cd")) |}.

Definition two_at_once : Script :=
  mkScript 1 1 [] [] [(2, Some Runs.hello)] [].

Definition binary_sender : @World Script :=
  mkWorld false [] 1 1 Runs.three_clients
    (mkScript 1 1 [] [] [(1, Some with_NUL)] []) [].

Definition typed (queue : list string) : @World Script :=
  world quiet Runs.three_clients queue.

(** A payload of [n] letters. *)
Fixpoint letters (n : nat) : string :=
  match n with
  | O => EmptyString
  | S n' => String "a" (letters n')
  end.

(** The shortest payload that does not fit [temp] behind the prefix. *)
Definition long_message : ISteamNetworkingMessage :=
  {| m_conn := 1; m_pData := letters 1018 |}.

(** The longest payload that does. *)
Definition longest_message : ISteamNetworkingMessage :=
  {| m_conn := 1; m_pData := letters 1017 |}.

Definition long_winded : @World Script :=
  mkWorld false [] 1 1 Runs.three_clients
    (mkScript 1 1 [] [] [(1, Some long_message)] [])
    [EvAcceptConnection 1 k_EResultOK; EvSetConnectionPollGroup 1 1 true].

Definition just_fitting : @World Script :=
  mkWorld false [] 1 1 Runs.three_clients
    (mkScript 1 1 [] [] [(1, Some longest_message)] [])
    [EvAcceptConnection 1 k_EResultOK; EvSetConnectionPollGroup 1 1 true].

(** A fresh server that is about to be told of connection 7. *)
Definition greeting : @World Script :=
  world (mkScript 1 1 [] [] []
           [[event 7 k_ESteamNetworkingConnectionState_Connecting
               k_ESteamNetworkingConnectionState_None]])
        ∅ [].

End MoreRuns.

(** * Properties *)

(** ** Trimming *)

Module TrimFacts.
Import Trim.

Lemma append_nil_l (s : string) : String.append EmptyString s = s.
Proof. reflexivity. Qed.

Lemma append_cons (c : ascii) (s t : string) :
  String.append (String c s) t = String c (String.append s t).
Proof. reflexivity. Qed.

(** stdpp keeps [simpl] from unfolding [String.append]; its two equations
    are rewritten instead. *)
Ltac str_simpl :=
  simpl; repeat (progress (rewrite ?append_nil_l, ?append_cons; simpl)).

Lemma append_nil_r (s : string) : String.append s EmptyString = s.
Proof. induction s as [|c s IH]; str_simpl; [done | by rewrite IH]. Qed.

Lemma append_assoc (a b c : string) :
  String.append (String.append a b) c = String.append a (String.append b c).
Proof. induction a as [|x a IH]; str_simpl; [done | by rewrite IH]. Qed.

Lemma rev_string_app (a b : string) :
  rev_string (String.append a b)
  = String.append (rev_string b) (rev_string a).
Proof.
  induction a as [|x a IH]; str_simpl.
  - by rewrite append_nil_r.
  - by rewrite IH, append_assoc.
Qed.

Lemma rev_string_involutive (s : string) : rev_string (rev_string s) = s.
Proof.
  induction s as [|c s IH]; str_simpl; [done|].
  by rewrite rev_string_app, IH.
Qed.

Lemma all_space_app (a b : string) :
  all_space (String.append a b) = all_space a && all_space b.
Proof.
  induction a as [|x a IH]; str_simpl; [done|].
  by rewrite IH, andb_assoc.
Qed.

Lemma all_space_rev (s : string) : all_space (rev_string s) = all_space s.
Proof.
  induction s as [|c s IH]; str_simpl; [done|].
  rewrite all_space_app, IH. str_simpl. rewrite andb_true_r. apply andb_comm.
Qed.

Lemma ltrim_empty_iff (s : string) :
  ltrim s = EmptyString ↔ all_space s = true.
Proof.
  induction s as [|c s IH]; str_simpl; [done|].
  destruct (isspace c); str_simpl; [done|]. split; discriminate.
Qed.

Lemma ltrim_skip (ws s : string) :
  all_space ws = true → ltrim (String.append ws s) = ltrim s.
Proof.
  induction ws as [|c ws IH]; str_simpl; [done|].
  intros [Hc Hws]%andb_true_iff. rewrite Hc. str_simpl. auto.
Qed.

Lemma ltrim_app_keep (s t : string) :
  ltrim s ≠ EmptyString → ltrim (String.append s t) = String.append (ltrim s) t.
Proof.
  induction s as [|c s IH]; str_simpl; [done|].
  destruct (isspace c); str_simpl; auto.
Qed.

Lemma ltrim_split (s : string) :
  ∃ ws, all_space ws = true ∧ s = String.append ws (ltrim s).
Proof.
  induction s as [|c s (ws & Hws & Hs)]; str_simpl.
  - by exists EmptyString.
  - destruct (isspace c) eqn:Hc; str_simpl.
    + exists (String c ws). str_simpl. rewrite Hc, Hws. split; [done|]. by f_equal.
    + by exists EmptyString.
Qed.

Lemma ltrim_head (s : string) (ch : ascii) :
  head_char (ltrim s) = Some ch → isspace ch = false.
Proof.
  induction s as [|c s IH]; str_simpl; [done|].
  destruct (isspace c) eqn:Hc; str_simpl; [done|]. by intros [= <-].
Qed.

Lemma rtrim_skip (s ws : string) :
  all_space ws = true → rtrim (String.append s ws) = rtrim s.
Proof.
  intros Hws. unfold rtrim.
  by rewrite rev_string_app, ltrim_skip by (by rewrite all_space_rev).
Qed.

Lemma rtrim_split (s : string) :
  ∃ ws, all_space ws = true ∧ s = String.append (rtrim s) ws.
Proof.
  destruct (ltrim_split (rev_string s)) as (ws & Hws & Hs).
  exists (rev_string ws). split; [by rewrite all_space_rev|].
  rewrite <- (rev_string_involutive s) at 1.
  by rewrite Hs, rev_string_app.
Qed.

(** Whitespace around a line does not change what trimming leaves. *)
Lemma trim_surrounded (ws1 L ws2 : string) :
  all_space ws1 = true → all_space ws2 = true →
  trim (String.append ws1 (String.append L ws2)) = trim L.
Proof.
  intros H1 H2. unfold trim. rewrite ltrim_skip by done.
  destruct (decide (ltrim L = EmptyString)) as [HL|HL].
  - rewrite HL. apply ltrim_empty_iff in HL.
    assert (ltrim (String.append L ws2) = EmptyString) as ->; [|done].
    apply ltrim_empty_iff. by rewrite all_space_app, HL, H2.
  - by rewrite ltrim_app_keep, rtrim_skip.
Qed.

(** What [ltrim] then [rtrim] return carries whitespace at neither end. *)
Lemma trim_trimmed (s : string) : trimmed (trim s).
Proof.
  unfold trim. split; intros ch Hch.
  - destruct (rtrim_split (ltrim s)) as (ws & _ & Hs).
    apply (ltrim_head s). rewrite Hs.
    by destruct (rtrim (ltrim s)).
  - unfold last_char, rtrim in Hch. rewrite rev_string_involutive in Hch.
    by eapply ltrim_head.
Qed.

End TrimFacts.

(** ** Running the server *)

(** Unfolds the monad down to matches on outcomes. *)
Ltac run :=
  unfold Printf, FatalError, CloseConnection_now, SendStringToClient, assert,
    read_unassigned, call, get, modify, stop, mbind, M_bind, mret, M_ret
    in *;
  simpl in *.

Section ServerFacts.

Context {T : Type} `{iface : ISteamNetworkingSockets T}.
Implicit Types (w : @World T) (h : Z).

Lemma same_memory_refl w : same_memory w w.
Proof. by repeat split. Qed.

Lemma same_memory_trans w1 w2 w3 :
  same_memory w1 w2 → same_memory w2 w3 → same_memory w1 w3.
Proof. unfold same_memory. intuition congruence. Qed.

Lemma SendStringToClient_run c str w :
  ∃ w', SendStringToClient c str w = Ok tt w' ∧
        trace w' = trace w ++ send_events str c ∧ same_memory w w'.
Proof.
  run. destruct (SendMessageToConnection _ _ _ _ _) as [r t].
  eexists. split; [done|]. simpl. split; [|by repeat split].
  by rewrite <- app_assoc.
Qed.

Lemma send_loop_run (l : list Z) str except w :
  ∃ w',
    for_each l (fun c =>
      if negb (c =? except) then SendStringToClient c str else mret tt) w
    = Ok tt w' ∧
    trace w' = trace w
               ++ flat_map (send_events str) (filter (λ c, c ≠ except) l) ∧
    same_memory w w'.
Proof.
  revert w. induction l as [|c l IH]; intros w.
  - exists w. simpl. rewrite app_nil_r. auto using same_memory_refl.
  - cbn [for_each]. unfold mbind at 1, M_bind at 1.
    rewrite filter_cons. destruct (Z.eqb_spec c except) as [->|Hne]; simpl.
    + destruct (IH w) as (w' & Hrun & Htr & Hmem).
      exists w'. rewrite decide_False by auto. done.
    + destruct (SendStringToClient_run c str w) as (w1 & -> & Htr1 & Hmem1).
      destruct (IH w1) as (w' & Hrun & Htr & Hmem).
      exists w'. rewrite decide_True by done. split; [done|].
      split; [|by eapply same_memory_trans].
      rewrite Htr, Htr1. cbn [flat_map]. by rewrite <- !app_assoc.
Qed.

Lemma SendStringToAllClients_run str except w :
  ∃ w',
    SendStringToAllClients str except w = Ok tt w' ∧
    trace w' = trace w
               ++ flat_map (send_events str)
                    (filter (λ c, c ≠ except)
                       (map_keys_in_order (m_mapClients w))) ∧
    same_memory w w'.
Proof.
  unfold SendStringToAllClients, mbind, M_bind, get. apply send_loop_run.
Qed.

(** The keys in iteration order are the registry's keys, each once. *)
Lemma map_keys_in_order_perm (m : gmap Z Client_t) :
  map_keys_in_order m ≡ₚ elements (dom m).
Proof. apply merge_sort_Permutation. Qed.

Lemma elem_of_map_keys_in_order (m : gmap Z Client_t) h :
  h ∈ map_keys_in_order m ↔ is_Some (m !! h).
Proof.
  by rewrite map_keys_in_order_perm, elem_of_elements, elem_of_dom.
Qed.

Lemma NoDup_map_keys_in_order (m : gmap Z Client_t) :
  NoDup (map_keys_in_order m).
Proof. rewrite map_keys_in_order_perm. apply NoDup_elements. Qed.

Lemma length_map_keys_in_order (m : gmap Z Client_t) :
  length (map_keys_in_order m) = size m.
Proof.
  rewrite map_keys_in_order_perm. rewrite <- size_dom. done.
Qed.

Lemma Sorted_map_keys_in_order (m : gmap Z Client_t) :
  Sorted Z.le (map_keys_in_order m).
Proof. apply (Sorted_merge_sort Z.le). Qed.

Lemma length_filter_others (l : list Z) h :
  NoDup l → h ∈ l → S (length (filter (λ c, c ≠ h) l)) = length l.
Proof.
  intros Hnd (k & Hk)%elem_of_Permutation.
  rewrite Hk in Hnd. apply NoDup_cons in Hnd as [Hnotin _].
  rewrite Hk, filter_cons_False by (intros ?; done). simpl. f_equal.
  f_equal. clear Hk. induction k as [|x k IH]; [done|].
  apply not_elem_of_cons in Hnotin as [Hx Hk].
  rewrite filter_cons_True by done. f_equal. auto.
Qed.

Lemma send_targets_app (a b : list Event) :
  send_targets (a ++ b) = send_targets a ++ send_targets b.
Proof. apply omap_app. Qed.

Lemma send_targets_send_events str (l : list Z) :
  send_targets (flat_map (send_events str) l) = l.
Proof. induction l as [|c l IH]; simpl; [done | by rewrite IH]. Qed.

End ServerFacts.

(** ** Incoming messages *)

Lemma c_str_c_str (s : string) : CStr.c_str (CStr.c_str s) = CStr.c_str s.
Proof.
  induction s as [|c s IH]; simpl; [done|].
  destruct (Ascii.eqb c CStr.NUL) eqn:Hc; simpl; [done|]. by rewrite Hc, IH.
Qed.

Lemma strlen_c_str (s : string) : CStr.strlen (CStr.c_str s) = CStr.strlen s.
Proof. unfold CStr.strlen. by rewrite c_str_c_str. Qed.

(** "test: " takes six of the 1024 bytes. *)
Lemma strlen_test_prefix (cmd : string) :
  CStr.strlen (String.append "test: " cmd) = 6 + CStr.strlen cmd.
Proof.
  unfold CStr.strlen. rewrite !TrimFacts.append_cons, TrimFacts.append_nil_l.
  simpl. lia.
Qed.

Section Messages.

Context {T : Type} `{iface : ISteamNetworkingSockets T}.
Implicit Types (w : @World T) (h : Z) (msg : ISteamNetworkingMessage).

(** The [sprintf] of line 330 fits [temp] exactly for payloads of at most
    1017 bytes before the first NUL. *)
Lemma sprintf_temp_fits (data : string) w :
  CStr.strlen data ≤ 1017 →
  sprintf_into 1024 (String.append "test: " (CStr.c_str data)) w = Ok tt w.
Proof.
  intros Hfit. unfold sprintf_into.
  rewrite strlen_test_prefix, strlen_c_str.
  by destruct (Z.ltb_spec 1024 (6 + CStr.strlen data + 1)); [lia|].
Qed.

Lemma sprintf_temp_overflows (data : string) w :
  1017 < CStr.strlen data →
  sprintf_into 1024 (String.append "test: " (CStr.c_str data)) w
  = Stop UndefinedBehaviour w.
Proof.
  intros Hlong. unfold sprintf_into.
  rewrite strlen_test_prefix, strlen_c_str.
  by destruct (Z.ltb_spec 1024 (6 + CStr.strlen data + 1)); [|lia].
Qed.

(** What one pass of the message loop does with a message whose sender is
    registered and whose payload fits [temp]. *)
Lemma PollIncomingMessages_body_registered w msg t' :
  ReceiveMessagesOnPollGroup (m_hPollGroup w) 1 (transport w)
    = ((1, Some msg), t') →
  is_Some (m_mapClients w !! m_conn msg) →
  CStr.strlen (m_pData msg) ≤ 1017 →
  ∃ w',
    PollIncomingMessages_body w = Ok Continue w' ∧
    trace w' = trace w
      ++ [EvReceiveMessagesOnPollGroup (m_hPollGroup w) 1 1 (Some msg);
          EvRelease msg]
      ++ flat_map (send_events (CStr.c_str (m_pData msg)))
           (filter (λ c, c ≠ m_conn msg)
              (map_keys_in_order (m_mapClients w))) ∧
    same_memory w w'.
Proof.
  intros Hrecv [cl Hcl] Hfit. unfold PollIncomingMessages_body. run.
  rewrite Hrecv. simpl. rewrite sprintf_temp_fits by done. rewrite Hcl.
  match goal with
  | |- context [SendStringToAllClients ?s ?e ?w0] =>
      destruct (SendStringToAllClients_run s e w0) as (w' & Hrun & Htr & Hmem)
  end.
  rewrite Hrun. exists w'. split; [done|]. split.
  - rewrite Htr. simpl. by rewrite <- !app_assoc.
  - eapply same_memory_trans; [|exact Hmem]. by repeat split.
Qed.

(** The sender's registry lookup is dereferenced without a test: with the
    sender missing the pass ends in undefined behaviour, after the message
    was released and before anything is sent. *)
Lemma PollIncomingMessages_body_unregistered w msg t' :
  ReceiveMessagesOnPollGroup (m_hPollGroup w) 1 (transport w)
    = ((1, Some msg), t') →
  m_mapClients w !! m_conn msg = None →
  ∃ w',
    PollIncomingMessages_body w = Stop UndefinedBehaviour w' ∧
    trace w' = trace w
      ++ [EvReceiveMessagesOnPollGroup (m_hPollGroup w) 1 1 (Some msg);
          EvRelease msg].
Proof.
  intros Hrecv Hcl. unfold PollIncomingMessages_body. run.
  rewrite Hrecv. simpl. unfold sprintf_into.
  destruct (1024 <? _); run; rewrite ?Hcl;
    (eexists; split; [done|]; simpl; by rewrite <- !app_assoc).
Qed.

(** A payload too long for [temp] ends the pass in undefined behaviour at
    the [sprintf], after the message was released and before anything is
    sent, whoever the sender is. *)
Lemma PollIncomingMessages_body_overflow w msg t' :
  ReceiveMessagesOnPollGroup (m_hPollGroup w) 1 (transport w)
    = ((1, Some msg), t') →
  1017 < CStr.strlen (m_pData msg) →
  ∃ w',
    PollIncomingMessages_body w = Stop UndefinedBehaviour w' ∧
    trace w' = trace w
      ++ [EvReceiveMessagesOnPollGroup (m_hPollGroup w) 1 1 (Some msg);
          EvRelease msg].
Proof.
  intros Hrecv Hlong. unfold PollIncomingMessages_body. run.
  rewrite Hrecv. simpl. rewrite sprintf_temp_overflows by done.
  eexists. split; [done|]. simpl. by rewrite <- !app_assoc.
Qed.

(** C2 (what the code does instead).  A received message whose payload has
    1018 bytes or more before its first NUL does not get broadcast at all,
    although its sender is registered: formatting it into the 1024-byte
    [temp] at line 330 runs past the end of the buffer, which is undefined
    behaviour, and no send has been attempted by then. *)
Theorem C2_long_payload_overflows_before_broadcast w msg t' (N : nat) :
  ReceiveMessagesOnPollGroup (m_hPollGroup w) 1 (transport w)
    = ((1, Some msg), t') →
  is_Some (m_mapClients w !! m_conn msg) →
  size (m_mapClients w) = S N →
  1017 < CStr.strlen (m_pData msg) →
  ∃ w',
    PollIncomingMessages_body w = Stop UndefinedBehaviour w' ∧
    trace w' = trace w
      ++ [EvReceiveMessagesOnPollGroup (m_hPollGroup w) 1 1 (Some msg);
          EvRelease msg] ∧
    send_targets (drop (length (trace w)) (trace w')) = [].
Proof.
  intros Hrecv _ _ Hlong.
  destruct (PollIncomingMessages_body_overflow w msg t' Hrecv Hlong)
    as (w' & Hrun & Htr).
  exists w'. split; [done|]. split; [done|].
  by rewrite Htr, drop_app_length.
Qed.

(** X30. Processing a received message whose sender is registered and whose
    payload has at most 1017 bytes before its first NUL, with the registry
    holding the sender and [N] other clients, makes exactly [N] send
    attempts: one to each registered client other than the sender, none
    to the sender, walking the registry in its key order. *)
Theorem broadcast_reaches_all_but_sender w msg t' (N : nat) :
  ReceiveMessagesOnPollGroup (m_hPollGroup w) 1 (transport w)
    = ((1, Some msg), t') →
  is_Some (m_mapClients w !! m_conn msg) →
  size (m_mapClients w) = S N →
  CStr.strlen (m_pData msg) ≤ 1017 →
  ∃ w' sent,
    PollIncomingMessages_body w = Ok Continue w' ∧
    send_targets (drop (length (trace w)) (trace w')) = sent ∧
    sent = filter (λ c, c ≠ m_conn msg) (map_keys_in_order (m_mapClients w)) ∧
    length sent = N ∧
    (m_conn msg ∉ sent) ∧
    NoDup sent ∧
    (∀ c, c ∈ sent ↔ c ≠ m_conn msg ∧ is_Some (m_mapClients w !! c)) ∧
    m_mapClients w' = m_mapClients w.
Proof.
  intros Hrecv Hin Hsize Hfit.
  destruct (PollIncomingMessages_body_registered w msg t' Hrecv Hin Hfit)
    as (w' & Hrun & Htr & Hmem).
  exists w', (filter (λ c, c ≠ m_conn msg) (map_keys_in_order (m_mapClients w))).
  split; [done|]. split.
  { rewrite Htr, drop_app_length, send_targets_app. simpl.
    apply send_targets_send_events. }
  split; [done|]. split.
  { pose proof (length_filter_others (map_keys_in_order (m_mapClients w))
                  (m_conn msg) (NoDup_map_keys_in_order _)) as Hlen.
    rewrite length_map_keys_in_order, Hsize in Hlen.
    apply eq_add_S, Hlen. by apply elem_of_map_keys_in_order. }
  split.
  { rewrite list_elem_of_filter. tauto. }
  split.
  { apply NoDup_filter, NoDup_map_keys_in_order. }
  split.
  { intros c. by rewrite list_elem_of_filter, elem_of_map_keys_in_order. }
  apply Hmem.
Qed.

End Messages.

(** ** Connection status changes *)

Lemma accepted_open_snoc (tr : list Event) (e : Event) :
  accepted_open (tr ++ [e]) = accepted_open_step (accepted_open tr) e.
Proof. unfold accepted_open. by rewrite fold_left_app. Qed.

Lemma in_poll_group_snoc (tr : list Event) (e : Event) :
  in_poll_group (tr ++ [e]) = in_poll_group_step (in_poll_group tr) e.
Proof. unfold in_poll_group. by rewrite fold_left_app. Qed.

Lemma in_poll_group_neutral (tr evs : list Event) :
  Forall poll_group_neutral evs → in_poll_group (tr ++ evs) = in_poll_group tr.
Proof.
  intros Hevs. revert tr. induction Hevs as [|e evs He _ IH]; intros tr.
  - by rewrite app_nil_r.
  - replace (tr ++ e :: evs) with ((tr ++ [e]) ++ evs)
      by (by rewrite <- app_assoc).
    rewrite IH, in_poll_group_snoc. by destruct e.
Qed.

Section Connections.

Context {T : Type} `{iface : ISteamNetworkingSockets T}.
Implicit Types (w : @World T) (h : Z)
  (pInfo : SteamNetConnectionStatusChangedCallback_t).

Lemma OnConnecting_run w pInfo res t1 ok t2 :
  m_eState (m_info pInfo) = k_ESteamNetworkingConnectionState_Connecting →
  m_mapClients w !! m_hConn pInfo = None →
  AcceptConnection (m_hConn pInfo) (transport w) = (res, t1) →
  SetConnectionPollGroup (m_hConn pInfo) (m_hPollGroup w) t1 = (ok, t2) →
  ∃ w',
    OnSteamNetConnectionStatusChanged pInfo w = Ok tt w' ∧
    m_mapClients w' = <[m_hConn pInfo := mkClient_t]> (m_mapClients w) ∧
    trace w' = trace w
      ++ connecting_events (m_szConnectionDescription (m_info pInfo))
           (m_hConn pInfo) (m_hPollGroup w) res ok ∧
    g_bQuit w' = g_bQuit w ∧ queueUserInput w' = queueUserInput w ∧
    m_hListenSock w' = m_hListenSock w ∧ m_hPollGroup w' = m_hPollGroup w.
Proof.
  intros Hst Hnew Hacc Hpoll. unfold OnSteamNetConnectionStatusChanged.
  rewrite Hst. run. rewrite Hnew. simpl. rewrite Hacc. simpl.
  unfold connecting_events. destruct res as [|code]; simpl.
  - rewrite Hpoll. simpl. destruct ok; simpl.
    + eexists. split; [done|]. simpl. by rewrite <- !app_assoc.
    + destruct (CloseConnection _ _ _ _ _) as [b t3].
      eexists. split; [done|]. simpl. by rewrite <- !app_assoc.
  - destruct (CloseConnection _ _ _ _ _) as [b t3].
    eexists. split; [done|]. simpl. by rewrite <- !app_assoc.
Qed.

(** The Connecting case asserts that the handle is new. *)
Lemma OnConnecting_known_handle w pInfo :
  m_eState (m_info pInfo) = k_ESteamNetworkingConnectionState_Connecting →
  is_Some (m_mapClients w !! m_hConn pInfo) →
  OnSteamNetConnectionStatusChanged pInfo w = Stop AssertionFailed w.
Proof.
  intros Hst [c Hc]. unfold OnSteamNetConnectionStatusChanged.
  rewrite Hst. run. by rewrite Hc.
Qed.

Lemma OnClosed_run w pInfo :
  is_closed_state (m_eState (m_info pInfo)) →
  m_eOldState pInfo = k_ESteamNetworkingConnectionState_Connecting →
  ∃ w',
    OnSteamNetConnectionStatusChanged pInfo w = Ok tt w' ∧
    m_mapClients w' = m_mapClients w ∧
    trace w' = trace w ++ closed_events pInfo ∧
    g_bQuit w' = g_bQuit w ∧ queueUserInput w' = queueUserInput w ∧
    m_hListenSock w' = m_hListenSock w ∧ m_hPollGroup w' = m_hPollGroup w.
Proof.
  intros Hst Hold. unfold OnSteamNetConnectionStatusChanged, closed_events.
  rewrite Hold. destruct Hst as [-> | ->]; run;
    destruct (CloseConnection _ _ _ _ _) as [b t3];
    (eexists; split; [done|]; by simpl).
Qed.

(** A closed event for a registered connection that was Connected gets as
    far as reading [pszDebugLogAction]: nothing is logged, nothing erased,
    nothing closed. *)
Lemma OnClosed_connected_undefined w pInfo :
  is_closed_state (m_eState (m_info pInfo)) →
  m_eOldState pInfo = k_ESteamNetworkingConnectionState_Connected →
  is_Some (m_mapClients w !! m_hConn pInfo) →
  OnSteamNetConnectionStatusChanged pInfo w = Stop UndefinedBehaviour w.
Proof.
  intros Hst Hold [c Hc]. unfold OnSteamNetConnectionStatusChanged.
  rewrite Hold. destruct Hst as [-> | ->]; run; by rewrite Hc.
Qed.

(** Outside what the closed cases assert, the handler stops at the
    assertion and closes nothing. *)
Lemma OnClosed_assertions w pInfo :
  is_closed_state (m_eState (m_info pInfo)) →
  (m_eOldState pInfo = k_ESteamNetworkingConnectionState_Connected ∧
   m_mapClients w !! m_hConn pInfo = None) ∨
  (m_eOldState pInfo ≠ k_ESteamNetworkingConnectionState_Connected ∧
   m_eOldState pInfo ≠ k_ESteamNetworkingConnectionState_Connecting) →
  OnSteamNetConnectionStatusChanged pInfo w = Stop AssertionFailed w.
Proof.
  intros Hst Hold. unfold OnSteamNetConnectionStatusChanged.
  destruct Hold as [[Hold Hc]|[Hold1 Hold2]].
  - rewrite Hold. destruct Hst as [-> | ->]; run; by rewrite Hc.
  - destruct Hst as [-> | ->]; run;
      rewrite !bool_decide_false by done; done.
Qed.

End Connections.

Lemma accepted_open_app (tr evs : list Event) :
  accepted_open (tr ++ evs) = fold_left accepted_open_step evs (accepted_open tr).
Proof. unfold accepted_open. by rewrite fold_left_app. Qed.

Lemma in_poll_group_app (tr evs : list Event) :
  in_poll_group (tr ++ evs) = fold_left in_poll_group_step evs (in_poll_group tr).
Proof. unfold in_poll_group. by rewrite fold_left_app. Qed.

Section ConnectionClaims.

Context {T : Type} `{iface : ISteamNetworkingSockets T}.
Implicit Types (w : @World T) (h : Z)
  (pInfo : SteamNetConnectionStatusChangedCallback_t).

(** C4. In the Connecting case the client record is inserted whatever the
    two calls return.  When [AcceptConnection] or [SetConnectionPollGroup]
    fails, the next call closes the connection with reason 0, no debug
    string and no linger, the handler logs the failure and returns without
    doing anything else, and the record inserted for the handle is still
    in the registry. *)
Theorem C4_failed_connecting_keeps_record w pInfo res t1 ok t2 :
  m_eState (m_info pInfo) = k_ESteamNetworkingConnectionState_Connecting →
  m_mapClients w !! m_hConn pInfo = None →
  AcceptConnection (m_hConn pInfo) (transport w) = (res, t1) →
  SetConnectionPollGroup (m_hConn pInfo) (m_hPollGroup w) t1 = (ok, t2) →
  EResult_is_OK res = false ∨ ok = false →
  ∃ w',
    OnSteamNetConnectionStatusChanged pInfo w = Ok tt w' ∧
    m_mapClients w' = <[m_hConn pInfo := mkClient_t]> (m_mapClients w) ∧
    m_mapClients w' !! m_hConn pInfo = Some mkClient_t ∧
    trace w' = trace w
      ++ [EvPrintf "Connection request from %s"
            [ArgStr (m_szConnectionDescription (m_info pInfo))];
          EvAcceptConnection (m_hConn pInfo) res]
      ++ (if EResult_is_OK res
          then [EvSetConnectionPollGroup (m_hConn pInfo) (m_hPollGroup w) false]
          else [])
      ++ [EvCloseConnection (m_hConn pInfo) 0 None false;
          EvPrintf (if EResult_is_OK res
                    then "Failed to set poll group?"
                    else "Can't accept connection.  (It was already closed?)")
                   []].
Proof.
  intros Hst Hnew Hacc Hpoll Hfail.
  destruct (OnConnecting_run w pInfo res t1 ok t2 Hst Hnew Hacc Hpoll)
    as (w' & Hrun & Hmap & Htr & _).
  exists w'. split; [done|]. split; [done|]. split.
  { rewrite Hmap. apply lookup_insert_eq. }
  rewrite Htr. unfold connecting_events.
  destruct (EResult_is_OK res) eqn:Hres; [|done].
  destruct Hfail as [?| ->]; done.
Qed.

(** C5 (what the code does instead).  For a ClosedByPeer or
    ProblemDetectedLocally event on a registered connection that was
    Connected, the handler reads the never-assigned [pszDebugLogAction]
    for its log line before it gets to erase the record and to close the
    handle: undefined behaviour, with the record still registered and no
    [CloseConnection] made.  For a connection that was still Connecting
    the handler does what the claim says: the registry is left as it is
    and the handle is closed with reason 0, no debug string and no
    linger. *)
Theorem C5_connected_close_reads_unassigned_pointer w pInfo :
  is_closed_state (m_eState (m_info pInfo)) →
  (m_eOldState pInfo = k_ESteamNetworkingConnectionState_Connected →
   is_Some (m_mapClients w !! m_hConn pInfo) →
   OnSteamNetConnectionStatusChanged pInfo w = Stop UndefinedBehaviour w) ∧
  (m_eOldState pInfo = k_ESteamNetworkingConnectionState_Connecting →
   ∃ w',
     OnSteamNetConnectionStatusChanged pInfo w = Ok tt w' ∧
     m_mapClients w' = m_mapClients w ∧
     trace w' = trace w
       ++ [EvCloseConnection (m_hConn pInfo) 0 None false]).
Proof.
  intros Hst. split.
  - intros Hold Hreg. by apply OnClosed_connected_undefined.
  - intros Hold.
    destruct (OnClosed_run w pInfo Hst Hold) as (w' & Hrun & Hmap & Htr & _).
    by exists w'.
Qed.

(** C1 (what the code does instead).  A Connecting event whose
    [AcceptConnection] or [SetConnectionPollGroup] fails leaves a handle in
    the registry that the server has itself closed and that is not an
    accepted open connection: the agreement between registry and transport
    is lost by this event. *)
Theorem C1_failed_connecting_breaks_agreement w pInfo res t1 ok t2 :
  m_eState (m_info pInfo) = k_ESteamNetworkingConnectionState_Connecting →
  m_mapClients w !! m_hConn pInfo = None →
  AcceptConnection (m_hConn pInfo) (transport w) = (res, t1) →
  SetConnectionPollGroup (m_hConn pInfo) (m_hPollGroup w) t1 = (ok, t2) →
  EResult_is_OK res = false ∨ ok = false →
  ∃ w',
    OnSteamNetConnectionStatusChanged pInfo w = Ok tt w' ∧
    m_hConn pInfo ∈ dom (m_mapClients w') ∧
    (m_hConn pInfo ∉ accepted_open (trace w')) ∧
    ¬ registry_agrees w'.
Proof.
  intros Hst Hnew Hacc Hpoll Hfail.
  destruct (OnConnecting_run w pInfo res t1 ok t2 Hst Hnew Hacc Hpoll)
    as (w' & Hrun & Hmap & Htr & _).
  exists w'. split; [done|].
  assert (m_hConn pInfo ∈ dom (m_mapClients w')) as Hin.
  { rewrite Hmap, dom_insert_L. by apply elem_of_union_l, elem_of_singleton. }
  assert (m_hConn pInfo ∉ accepted_open (trace w')) as Hout.
  { rewrite Htr, accepted_open_app. unfold connecting_events.
    destruct res as [|code]; simpl.
    - destruct Hfail as [?| ->]; [done|]. simpl.
      rewrite elem_of_difference, elem_of_singleton. tauto.
    - rewrite elem_of_difference, elem_of_singleton. tauto. }
  repeat split; [done..|]. intros Hagree. by apply Hout, Hagree.
Qed.

(** A connection that was accepted and then closes while still Connecting
    loses the agreement in the same way: the closed case erases nothing
    for it and closes the handle. *)
Lemma closed_while_connecting_keeps_record w pInfo :
  is_closed_state (m_eState (m_info pInfo)) →
  m_eOldState pInfo = k_ESteamNetworkingConnectionState_Connecting →
  is_Some (m_mapClients w !! m_hConn pInfo) →
  ∃ w',
    OnSteamNetConnectionStatusChanged pInfo w = Ok tt w' ∧
    m_hConn pInfo ∈ dom (m_mapClients w') ∧
    ¬ registry_agrees w'.
Proof.
  intros Hst Hold Hreg.
  destruct (OnClosed_run w pInfo Hst Hold) as (w' & Hrun & Hmap & Htr & _).
  exists w'. split; [done|].
  assert (m_hConn pInfo ∈ dom (m_mapClients w')) as Hin.
  { rewrite Hmap. by apply elem_of_dom. }
  split; [done|]. intros Hagree. specialize (Hagree _ Hin).
  rewrite Htr, accepted_open_app in Hagree. simpl in Hagree.
  rewrite elem_of_difference, elem_of_singleton in Hagree. tauto.
Qed.

End ConnectionClaims.

(** ** Reachable states and the senders invariant *)

Section Reachability.

Context {T : Type} `{iface : ISteamNetworkingSockets T}.
Implicit Types (w : @World T) (h : Z)
  (pInfo : SteamNetConnectionStatusChangedCallback_t).

Lemma quiet_step_refl w : quiet_step w w.
Proof. split; [done|]. exists []. by rewrite app_nil_r. Qed.

Lemma quiet_step_trans w1 w2 w3 :
  quiet_step w1 w2 → quiet_step w2 w3 → quiet_step w1 w3.
Proof.
  intros [Hm1 (e1 & Ht1 & Hf1)] [Hm2 (e2 & Ht2 & Hf2)].
  split; [congruence|]. exists (e1 ++ e2).
  split; [by rewrite Ht2, Ht1, app_assoc | by apply Forall_app].
Qed.

Lemma quiet_step_log (e : Event) w :
  poll_group_neutral e → quiet_step w (log e w).
Proof. intros He. split; [done|]. exists [e]. split; [done | by constructor]. Qed.

Lemma quiet_step_senders w w' :
  quiet_step w w' → senders_registered w → senders_registered w'.
Proof.
  intros [Hm (evs & Ht & Hf)]. unfold senders_registered.
  by rewrite Hm, Ht, in_poll_group_neutral.
Qed.

Lemma send_events_neutral str (l : list Z) :
  Forall poll_group_neutral (flat_map (send_events str) l).
Proof. induction l; simpl; repeat constructor; done. Qed.

Lemma PollIncomingMessages_body_quiet w ctl w' :
  PollIncomingMessages_body w = Ok ctl w' → quiet_step w w'.
Proof.
  unfold PollIncomingMessages_body. run.
  destruct (ReceiveMessagesOnPollGroup _ _ _) as [[numMsgs pMsg] t1] eqn:Hrecv.
  simpl. destruct (numMsgs =? 0) eqn:H0.
  { intros [= _ <-]. split; [done|]. eexists [_]. split; [done|].
    by repeat constructor. }
  destruct (numMsgs <? 0); simpl; [done|].
  destruct (numMsgs =? 1) eqn:H1; simpl; [|done].
  destruct pMsg as [msg|]; simpl; [|done].
  unfold sprintf_into. destruct (_ <? _); run; [done|].
  destruct (m_mapClients w !! m_conn msg) as [c|] eqn:Hc; simpl; [|done].
  match goal with
  | |- context [SendStringToAllClients ?s ?e ?w0] =>
      destruct (SendStringToAllClients_run s e w0) as (w2 & Hrun & Htr & Hmem)
  end.
  rewrite Hrun. intros [= _ <-]. split; [apply Hmem|].
  eexists (_ :: _ :: flat_map _ _). split.
  - rewrite Htr. simpl. by rewrite <- !app_assoc.
  - repeat constructor. apply send_events_neutral.
Qed.

Lemma Run_listen_quiet nPort w w' :
  Run_listen nPort w = Ok tt w' → quiet_step w w'.
Proof.
  unfold Run_listen. run.
  destruct (CreateListenSocketIP _ _) as [ls t1]. simpl.
  destruct (ls =? _); simpl; [done|].
  destruct (CreatePollGroup _) as [pg t2]. simpl.
  destruct (pg =? _); simpl; [done|].
  intros [= <-]. split; [done|]. eexists [_; _; _]. split.
  - simpl. by rewrite <- !app_assoc.
  - by repeat constructor.
Qed.

Lemma PollLocalUserInput_loop_quiet fuel cmd w w' :
  PollLocalUserInput_loop fuel cmd w = Ok tt w' → quiet_step w w'.
Proof.
  revert cmd w. induction fuel as [|fuel IH]; intros cmd w; simpl.
  - destruct (g_bQuit w); [|done]. intros [= <-]. apply quiet_step_refl.
  - destruct (g_bQuit w); [intros [= <-]; apply quiet_step_refl|].
    unfold LocalUserInput_GetNext, PollLocalUserInput_body. run.
    destruct (GetNext_loop _ _) as [[got cmd'] q']. simpl.
    destruct got; [|intros [= <-]; by split; [|exists []; rewrite app_nil_r]].
    destruct (CStr.strcmp cmd' "/quit" =? 0); simpl.
    + intros [= <-]. split; [done|]. eexists [_]. split; [done|].
      by repeat constructor.
    + intros Hloop. apply IH in Hloop.
      eapply quiet_step_trans; [|exact Hloop].
      split; [done|]. eexists [_]. split; [done|]. by repeat constructor.
Qed.

Lemma LocalUserInput_thread_quiet stdin w w' :
  LocalUserInput_thread stdin w = Ok tt w' → quiet_step w w'.
Proof.
  revert w. induction stdin as [|szLine stdin IH]; intros w; simpl.
  - destruct (g_bQuit w); [intros [= <-]; apply quiet_step_refl|].
    run. intros [= <-]. split; [done|]. eexists [_]. split; [done|].
    by repeat constructor.
  - destruct (g_bQuit w); [intros [= <-]; apply quiet_step_refl|].
    run. intros Hrest. apply IH in Hrest.
    eapply quiet_step_trans; [|exact Hrest].
    split; [done|]. exists []. simpl. by rewrite app_nil_r.
Qed.

Lemma OnClosed_senders pInfo w w' :
  is_closed_state (m_eState (m_info pInfo)) →
  OnSteamNetConnectionStatusChanged pInfo w = Ok tt w' →
  senders_registered w → senders_registered w'.
Proof.
  intros Hcl Hrun Hinv.
  assert (m_eOldState pInfo = k_ESteamNetworkingConnectionState_Connecting)
    as Hold.
  { destruct (decide (m_eOldState pInfo
                      = k_ESteamNetworkingConnectionState_Connected)) as [Ho|Ho].
    - destruct (m_mapClients w !! m_hConn pInfo) as [c|] eqn:Hc.
      + rewrite OnClosed_connected_undefined in Hrun by eauto. done.
      + rewrite OnClosed_assertions in Hrun by auto. done.
    - destruct (decide (m_eOldState pInfo
                        = k_ESteamNetworkingConnectionState_Connecting));
        [done|].
      rewrite OnClosed_assertions in Hrun by auto. done. }
  destruct (OnClosed_run w pInfo Hcl Hold) as (w2 & Hrun2 & Hmap & Htr & _).
  rewrite Hrun2 in Hrun. injection Hrun as <-.
  unfold senders_registered in *.
  rewrite Hmap, Htr, in_poll_group_app. unfold closed_events. simpl.
  intros x; specialize (Hinv x); set_unfold; tauto.
Qed.

(** The status handler keeps every poll-group member registered: the
    record is inserted before the poll group is assigned, and a closed
    case that returns leaves the registry as it is. *)
Lemma OnSteamNetConnectionStatusChanged_senders pInfo w w' :
  OnSteamNetConnectionStatusChanged pInfo w = Ok tt w' →
  senders_registered w → senders_registered w'.
Proof.
  intros Hrun Hinv.
  destruct (m_eState (m_info pInfo)) eqn:Hst;
    try (unfold OnSteamNetConnectionStatusChanged in Hrun;
         rewrite Hst in Hrun; by injection Hrun as <-).
  - destruct (m_mapClients w !! m_hConn pInfo) as [c|] eqn:Hc.
    { by rewrite OnConnecting_known_handle in Hrun. }
    destruct (AcceptConnection (m_hConn pInfo) (transport w))
      as [res t1] eqn:Hacc.
    destruct (SetConnectionPollGroup (m_hConn pInfo) (m_hPollGroup w) t1)
      as [ok t2] eqn:Hpoll.
    destruct (OnConnecting_run w pInfo res t1 ok t2 Hst Hc Hacc Hpoll)
      as (w2 & Hrun2 & Hmap & Htr & _).
    rewrite Hrun2 in Hrun. injection Hrun as <-.
    unfold senders_registered in *.
    rewrite Hmap, Htr, in_poll_group_app, dom_insert_L.
    unfold connecting_events.
    destruct res, ok; simpl; intros x; specialize (Hinv x); set_unfold; tauto.
  - eapply OnClosed_senders; [|done..]. rewrite Hst. by left.
  - eapply OnClosed_senders; [|done..]. rewrite Hst. by right.
Qed.

End Reachability.

Section ReachableStates.

Context {T : Type} `{iface : ISteamNetworkingSockets T}.
Implicit Types (w : @World T) (h : Z) (msg : ISteamNetworkingMessage).

Lemma PollIncomingMessages_quiet fuel w w' :
  PollIncomingMessages fuel w = Ok tt w' → quiet_step w w'.
Proof.
  revert w. induction fuel as [|fuel IH]; intros w; simpl.
  - destruct (g_bQuit w); [|done]. intros [= <-]. apply quiet_step_refl.
  - destruct (g_bQuit w); [intros [= <-]; apply quiet_step_refl|].
    unfold mbind, M_bind.
    destruct (PollIncomingMessages_body w) as [ctl w1| |] eqn:Hbody; [|done..].
    apply PollIncomingMessages_body_quiet in Hbody.
    destruct ctl.
    + intros Hrest. eapply quiet_step_trans; eauto.
    + unfold mret, M_ret. by intros [= <-].
Qed.

Lemma for_each_status_senders
    (l : list SteamNetConnectionStatusChangedCallback_t) w w' :
  for_each l OnSteamNetConnectionStatusChanged w = Ok tt w' →
  senders_registered w → senders_registered w'.
Proof.
  revert w. induction l as [|pInfo l IH]; intros w; simpl.
  - unfold mret, M_ret. by intros [= <-].
  - unfold mbind, M_bind.
    destruct (OnSteamNetConnectionStatusChanged pInfo w)
      as [[] w1| |] eqn:Hone; [|done..].
    intros Hrest Hinv. eapply IH; [exact Hrest|].
    by eapply OnSteamNetConnectionStatusChanged_senders.
Qed.

Lemma PollConnectionStateChanges_senders w w' :
  PollConnectionStateChanges w = Ok tt w' →
  senders_registered w → senders_registered w'.
Proof.
  unfold PollConnectionStateChanges. run.
  destruct (RunCallbacks (transport w)) as [pending t1]. simpl.
  intros Hrun Hinv. eapply for_each_status_senders; [exact Hrun|].
  eapply quiet_step_senders; [|exact Hinv].
  split; [done|]. eexists [_]. split; [done|]. by repeat constructor.
Qed.

Lemma server_step_senders w w' :
  server_step w w' → senders_registered w → senders_registered w'.
Proof.
  intros [nPort w1 w2 H|fuel w1 w2 H|w1 w2 H|w1 w2 H|stdin w1 w2 H].
  - apply quiet_step_senders. by eapply Run_listen_quiet.
  - apply quiet_step_senders. by eapply PollIncomingMessages_quiet.
  - by apply PollConnectionStateChanges_senders.
  - apply quiet_step_senders. by eapply PollLocalUserInput_loop_quiet.
  - apply quiet_step_senders. by eapply LocalUserInput_thread_quiet.
Qed.

(** In every reachable state, whatever is in the poll group is registered. *)
Lemma reachable_senders_registered w :
  reachable w → senders_registered w.
Proof.
  induction 1 as [w Hm Ht|w w' _ IH Hstep].
  - unfold senders_registered. rewrite Ht. unfold in_poll_group. simpl.
    apply empty_subseteq.
  - by eapply server_step_senders.
Qed.

(** C3. The sender's registry entry is dereferenced with no test against
    [end()]: a message whose sender is not registered ends the pass in
    undefined behaviour, whatever its payload.  That case does not arise
    while every member of the poll group is registered, which holds in
    every reachable state: a message received from a poll-group member
    then has a registered sender, and the pass completes with the
    invariant intact when the payload also fits the 1024-byte buffer that
    [sprintf] fills first (at most 1017 bytes before the first NUL). *)
Theorem C3_sender_lookup_needs_registered_sender w msg t' :
  ReceiveMessagesOnPollGroup (m_hPollGroup w) 1 (transport w)
    = ((1, Some msg), t') →
  (m_mapClients w !! m_conn msg = None →
   ∃ w', PollIncomingMessages_body w = Stop UndefinedBehaviour w') ∧
  (is_Some (m_mapClients w !! m_conn msg) →
   CStr.strlen (m_pData msg) ≤ 1017 →
   ∃ w', PollIncomingMessages_body w = Ok Continue w') ∧
  (senders_registered w → m_conn msg ∈ in_poll_group (trace w) →
   is_Some (m_mapClients w !! m_conn msg) ∧
   (CStr.strlen (m_pData msg) ≤ 1017 →
    ∃ w', PollIncomingMessages_body w = Ok Continue w' ∧
          senders_registered w')) ∧
  (reachable w → senders_registered w).
Proof.
  intros Hrecv. split; [|split; [|split]].
  - intros Hnone.
    destruct (PollIncomingMessages_body_unregistered w msg t' Hrecv Hnone)
      as (w' & Hrun & _). eauto.
  - intros Hsome Hfit.
    destruct (PollIncomingMessages_body_registered w msg t' Hrecv Hsome Hfit)
      as (w' & Hrun & _). eauto.
  - intros Hinv Hmember.
    assert (is_Some (m_mapClients w !! m_conn msg)) as Hsome.
    { apply elem_of_dom. by apply Hinv. }
    split; [done|]. intros Hfit.
    destruct (PollIncomingMessages_body_registered w msg t' Hrecv Hsome Hfit)
      as (w' & Hrun & _).
    exists w'. split; [done|].
    eapply quiet_step_senders; [|exact Hinv].
    by eapply PollIncomingMessages_body_quiet.
  - apply reachable_senders_registered.
Qed.

End ReachableStates.

(** ** Console input *)

Lemma string_compare_refl (s : string) : String.compare s s = Eq.
Proof.
  pose proof (String.compare_antisym s s) as H.
  by destruct (String.compare s s).
Qed.

Lemma strcmp_eq_0 (a b : string) :
  CStr.strcmp a b = 0 ↔ CStr.c_str a = CStr.c_str b.
Proof.
  unfold CStr.strcmp. split.
  - intros H. apply String.compare_eq_iff.
    destruct (String.compare _ _); [done | lia | lia].
  - intros ->. by rewrite string_compare_refl.
Qed.

(** What the loop of [LocalUserInput_GetNext] returns: the first line of
    the queue that is not blank, trimmed, with the blank lines before it
    dropped; or nothing, with the queue emptied. *)
Lemma GetNext_loop_spec (queue : list string) (result : string) :
  match GetNext_loop queue result with
  | (true, cmd, queue') =>
      ∃ blanks raw,
        queue = blanks ++ raw :: queue' ∧
        Forall (λ b, Trim.trim b = EmptyString) blanks ∧
        cmd = Trim.trim raw ∧ cmd ≠ EmptyString
  | (false, cmd, queue') =>
      queue' = [] ∧ Forall (λ b, Trim.trim b = EmptyString) queue
  end.
Proof.
  revert result. induction queue as [|front queue IH]; intros result; simpl.
  - by split.
  - fold (Trim.trim front).
    destruct (String.eqb_spec (Trim.trim front) EmptyString) as [Hb|Hb]; simpl.
    + specialize (IH (Trim.trim front)).
      destruct (GetNext_loop queue (Trim.trim front)) as [[[] cmd] queue'].
      * destruct IH as (blanks & raw & -> & Hblanks & -> & Hne).
        exists (front :: blanks), raw. by repeat split; [constructor|..].
      * destruct IH as [-> Hblanks]. split; [done | by constructor].
    + exists [], front. by repeat split.
Qed.

Lemma GetNext_loop_shorter (queue : list string) (result : string) cmd queue' :
  GetNext_loop queue result = (true, cmd, queue') →
  (length queue' < length queue)%nat.
Proof.
  intros Heq. pose proof (GetNext_loop_spec queue result) as Hspec.
  rewrite Heq in Hspec. destruct Hspec as (blanks & raw & -> & _).
  rewrite length_app. simpl. lia.
Qed.

Section Console.

Context {T : Type} `{iface : ISteamNetworkingSockets T}.
Implicit Types (w : @World T).

(** With more fuel than queued lines the console loop always returns. *)
Lemma PollLocalUserInput_loop_returns fuel cmd w :
  (length (queueUserInput w) < fuel)%nat →
  ∃ w', PollLocalUserInput_loop fuel cmd w = Ok tt w'.
Proof.
  revert cmd w. induction fuel as [|fuel IH]; intros cmd w Hlen; [lia|].
  simpl. destruct (g_bQuit w); [by eauto|].
  unfold LocalUserInput_GetNext, PollLocalUserInput_body. run.
  destruct (GetNext_loop _ _) as [[got cmd'] q'] eqn:Hget. simpl.
  destruct got; [|by eauto].
  apply GetNext_loop_shorter in Hget.
  destruct (CStr.strcmp cmd' "/quit" =? 0); simpl; [by eauto|].
  apply IH. simpl. lia.
Qed.

Lemma PollLocalUserInput_returns w :
  ∃ w', PollLocalUserInput w = Ok tt w'.
Proof. apply PollLocalUserInput_loop_returns. lia. Qed.

(** The reader thread pushes every line as it was read. *)
Lemma LocalUserInput_thread_pushes stdin w :
  g_bQuit w = false →
  ∃ w',
    LocalUserInput_thread stdin w = Ok tt w' ∧
    queueUserInput w' = queueUserInput w ++ (CStr.c_str <$> stdin) ∧
    g_bQuit w' = true.
Proof.
  revert w. induction stdin as [|szLine stdin IH]; intros w Hq; simpl.
  - rewrite Hq. run. eexists. split; [done|]. simpl. by rewrite app_nil_r.
  - rewrite Hq. run.
    destruct (IH (set_queueUserInput
                    (queueUserInput w ++ [CStr.c_str szLine]) w) Hq)
      as (w' & Hrun & Hqueue & Hquit).
    exists w'. split; [done|]. split; [|done].
    rewrite Hqueue. simpl. by rewrite <- app_assoc.
Qed.

(** C6 (as the code has it).  The reader thread enqueues every line it
    reads as it is, untrimmed and blank lines included.  Trimming happens
    when the consumer takes a line off the queue:
    [LocalUserInput_GetNext] drops the lines that are blank after
    trimming and delivers the first other line trimmed, so the consumer
    never receives a blank or untrimmed line. *)
Theorem C6_trimmed_when_dequeued stdin w result w2 :
  g_bQuit w = false →
  (∃ w1, LocalUserInput_thread stdin w = Ok tt w1 ∧
         queueUserInput w1 = queueUserInput w ++ (CStr.c_str <$> stdin)) ∧
  (∃ got cmd w3,
     LocalUserInput_GetNext result w2 = Ok (got, cmd) w3 ∧
     if got : bool then
       cmd ≠ EmptyString ∧ Trim.trimmed cmd ∧
       ∃ blanks raw,
         queueUserInput w2 = blanks ++ raw :: queueUserInput w3 ∧
         Forall (λ b, Trim.trim b = EmptyString) blanks ∧
         cmd = Trim.trim raw
     else
       queueUserInput w3 = [] ∧
       Forall (λ b, Trim.trim b = EmptyString) (queueUserInput w2)).
Proof.
  intros Hq. split.
  { destruct (LocalUserInput_thread_pushes stdin w Hq) as (w1 & ? & ? & _).
    eauto. }
  unfold LocalUserInput_GetNext.
  pose proof (GetNext_loop_spec (queueUserInput w2) result) as Hspec.
  destruct (GetNext_loop _ _) as [[got cmd] queue'].
  exists got, cmd. eexists. split; [done|]. simpl. destruct got.
  - destruct Hspec as (blanks & raw & Hqueue & Hblanks & -> & Hne).
    split; [done|]. split; [apply TrimFacts.trim_trimmed|]. eauto.
  - done.
Qed.

End Console.

Section ConsoleClaims.

Context {T : Type} `{iface : ISteamNetworkingSockets T}.
Implicit Types (w : @World T).

(** One pass of the console loop, spelled out. *)
Lemma PollLocalUserInput_loop_step fuel cmd0 w :
  g_bQuit w = false →
  PollLocalUserInput_loop (S fuel) cmd0 w =
    let '(got_input, cmd, queue) := GetNext_loop (queueUserInput w) cmd0 in
    if got_input : bool then
      if CStr.strcmp cmd "/quit" =? 0 then
        Ok tt (log (EvPrintf "Shutting down server" [])
                 (set_g_bQuit true (set_queueUserInput queue w)))
      else
        PollLocalUserInput_loop fuel cmd
          (log (EvPrintf "The server only knows one command: '/quit'" [])
             (set_queueUserInput queue w))
    else Ok tt (set_queueUserInput queue w).
Proof.
  intros Hq. simpl. rewrite Hq.
  unfold LocalUserInput_GetNext, PollLocalUserInput_body. run.
  destruct (GetNext_loop _ _) as [[[] cmd] queue]; simpl; [|done].
  by destruct (CStr.strcmp cmd "/quit" =? 0).
Qed.

(** C7. A queued line with extra whitespace before and after it is
    processed exactly as the line itself: the two runs of
    [PollLocalUserInput] end in the same outcome and the same state.  In
    particular a padded "/quit" sets the quit flag. *)
Theorem C7_surrounding_whitespace_is_ignored ws1 L ws2 rest w :
  Trim.all_space ws1 = true → Trim.all_space ws2 = true →
  g_bQuit w = false →
  PollLocalUserInput
    (set_queueUserInput (String.append ws1 (String.append L ws2) :: rest) w)
  = PollLocalUserInput (set_queueUserInput (L :: rest) w) ∧
  (L = "/quit"%string →
   ∃ w',
     PollLocalUserInput
       (set_queueUserInput (String.append ws1 (String.append L ws2) :: rest) w)
     = Ok tt w' ∧
     g_bQuit w' = true ∧ queueUserInput w' = rest).
Proof.
  intros H1 H2 Hq.
  assert (PollLocalUserInput
            (set_queueUserInput
               (String.append ws1 (String.append L ws2) :: rest) w)
          = PollLocalUserInput (set_queueUserInput (L :: rest) w)) as Heq.
  { unfold PollLocalUserInput.
    cbn [queueUserInput set_queueUserInput length].
    rewrite !PollLocalUserInput_loop_step by done.
    cbn [queueUserInput set_queueUserInput GetNext_loop].
    fold (Trim.trim (String.append ws1 (String.append L ws2))).
    fold (Trim.trim L). by rewrite TrimFacts.trim_surrounded. }
  split; [done|]. intros ->. rewrite Heq.
  unfold PollLocalUserInput. cbn [queueUserInput set_queueUserInput length].
  rewrite PollLocalUserInput_loop_step by done.
  eexists. split; [reflexivity|]. done.
Qed.

(** C9. A line delivered to the console loop that is not "/quit" leaves
    the registry and the quit flag as they were and logs exactly one
    diagnostic, after which the loop goes on with the rest of the queue.
    The line "/quit" sets the quit flag, logs the shutdown and ends the
    loop there: the lines behind it stay in the queue. *)
Theorem C9_console_line_effect cmd0 cmd fuel w w1 :
  g_bQuit w = false →
  LocalUserInput_GetNext cmd0 w = Ok (true, cmd) w1 →
  (CStr.c_str cmd ≠ "/quit"%string →
   ∃ w',
     PollLocalUserInput_body cmd w1 = Ok Continue w' ∧
     m_mapClients w' = m_mapClients w ∧
     g_bQuit w' = g_bQuit w ∧
     trace w' = trace w
       ++ [EvPrintf "The server only knows one command: '/quit'" []] ∧
     PollLocalUserInput_loop (S fuel) cmd0 w
     = PollLocalUserInput_loop fuel cmd w') ∧
  (CStr.c_str cmd = "/quit"%string →
   ∃ w',
     PollLocalUserInput_loop (S fuel) cmd0 w = Ok tt w' ∧
     g_bQuit w' = true ∧
     queueUserInput w' = queueUserInput w1 ∧
     m_mapClients w' = m_mapClients w ∧
     trace w' = trace w ++ [EvPrintf "Shutting down server" []]).
Proof.
  intros Hq Hget. rewrite PollLocalUserInput_loop_step by done.
  unfold LocalUserInput_GetNext in Hget.
  destruct (GetNext_loop _ _) as [[got cmd'] q']. injection Hget as -> -> <-.
  unfold PollLocalUserInput_body. split; intros Hcmd.
  - assert ((CStr.strcmp cmd "/quit" =? 0) = false) as ->.
    { apply Z.eqb_neq. by rewrite strcmp_eq_0. }
    run. eexists. by repeat split.
  - assert ((CStr.strcmp cmd "/quit" =? 0) = true) as ->.
    { apply Z.eqb_eq. by rewrite strcmp_eq_0. }
    run. eexists. by repeat split.
Qed.

End ConsoleClaims.

(** ** Start and shutdown of [Run] *)

Section RunClaims.

Context {T : Type} `{iface : ISteamNetworkingSockets T}.
Implicit Types (w : @World T) (h : Z).

Lemma shutdown_loop_run (l : list Z) w :
  ∃ w',
    for_each l Run_shutdown_body w = Ok tt w' ∧
    trace w' = trace w ++ flat_map shutdown_events l ∧
    same_memory w w'.
Proof.
  revert w. induction l as [|h l IH]; intros w.
  - exists w. simpl. rewrite app_nil_r. auto using same_memory_refl.
  - cbn [for_each]. unfold mbind at 1, M_bind at 1.
    unfold Run_shutdown_body at 1. unfold mbind at 1, M_bind at 1.
    destruct (SendStringToClient_run h "Server is shutting down.  Goodbye." w)
      as (w1 & -> & Htr1 & Hmem1).
    unfold call, mbind, M_bind, mret, M_ret.
    destruct (CloseConnection _ _ _ _ _) as [b t1].
    match goal with
    | |- context [for_each l _ ?w0] =>
        destruct (IH w0) as (w' & Hrun & Htr & Hmem)
    end.
    exists w'. split; [exact Hrun|]. split.
    + rewrite Htr. simpl. rewrite Htr1. simpl. by rewrite <- !app_assoc.
    + eapply same_memory_trans; [exact Hmem1|].
      eapply same_memory_trans; [|exact Hmem]. by repeat split.
Qed.

Lemma Run_shutdown_run w :
  ∃ w',
    Run_shutdown w = Ok tt w' ∧
    trace w' = trace w
      ++ [EvPrintf (nl "Closing connections...") []]
      ++ flat_map shutdown_events (map_keys_in_order (m_mapClients w))
      ++ [EvCloseListenSocket (m_hListenSock w);
          EvDestroyPollGroup (m_hPollGroup w)] ∧
    m_mapClients w' = ∅ ∧
    m_hListenSock w' = k_HSteamListenSocket_Invalid ∧
    m_hPollGroup w' = k_HSteamNetPollGroup_Invalid ∧
    g_bQuit w' = g_bQuit w ∧ queueUserInput w' = queueUserInput w.
Proof.
  unfold Run_shutdown. unfold Printf, modify, get, mbind, M_bind. simpl.
  match goal with
  | |- context [for_each ?l _ ?w0] =>
      destruct (shutdown_loop_run l w0) as (w1 & Hrun & Htr & Hmem)
  end.
  rewrite Hrun. destruct Hmem as (Hq & Hqueue & Hls & Hpg & Hmap).
  unfold call, mret, M_ret. simpl. rewrite Hls.
  destruct (CloseListenSocket _ _) as [b1 t1]. simpl. rewrite Hpg.
  destruct (DestroyPollGroup _ _) as [b2 t2]. simpl.
  eexists. split; [done|]. simpl. rewrite Htr. simpl.
  repeat split; try done. by rewrite <- !app_assoc.
Qed.

(** C8. With the quit flag set the loop of [Run] is left at once, and the
    rest of [Run] then does this, in this order: for every registered
    client, in the registry's order, the goodbye text is sent to it and
    its connection is closed with linger; then the registry is cleared,
    the listen socket closed and the poll group destroyed. *)
Theorem C8_shutdown_sequence fuel w :
  g_bQuit w = true →
  ∃ w',
    (Run_loop fuel ;; Run_shutdown) w = Ok tt w' ∧
    trace w' = trace w
      ++ [EvPrintf (nl "Closing connections...") []]
      ++ flat_map (λ h,
           [EvPrintf "Attempting to send string to client" [];
            EvSendMessageToConnection h "Server is shutting down.  Goodbye."
              34 k_nSteamNetworkingSend_UnreliableNoDelay;
            EvCloseConnection h 0 (Some "Server Shutdown"%string) true])
           (map_keys_in_order (m_mapClients w))
      ++ [EvCloseListenSocket (m_hListenSock w);
          EvDestroyPollGroup (m_hPollGroup w)] ∧
    (∀ h, h ∈ map_keys_in_order (m_mapClients w)
          ↔ is_Some (m_mapClients w !! h)) ∧
    NoDup (map_keys_in_order (m_mapClients w)) ∧
    m_mapClients w' = ∅ ∧
    m_hListenSock w' = k_HSteamListenSocket_Invalid ∧
    m_hPollGroup w' = k_HSteamNetPollGroup_Invalid.
Proof.
  intros Hq.
  destruct (Run_shutdown_run w) as (w' & Hrun & Htr & Hmap & Hls & Hpg & _).
  exists w'. split.
  { unfold mbind, M_bind. destruct fuel; simpl; by rewrite Hq. }
  split; [exact Htr|].
  split; [apply elem_of_map_keys_in_order|].
  split; [apply NoDup_map_keys_in_order|]. done.
Qed.

(** C10. A listen socket that cannot be created, a poll group that cannot
    be created, and a negative result of the receive call each end the
    process in [FatalError]: the fatal message is the last thing the run
    does, nothing is retried and nothing runs after it. *)
Theorem C10_fatal_conditions fuel nPort w :
  (∀ t1,
     CreateListenSocketIP nPort (transport w)
       = (k_HSteamListenSocket_Invalid, t1) →
     ∃ w',
       Run fuel nPort w = Stop FatalExit w' ∧
       trace w' = trace w
         ++ [EvCreateListenSocketIP nPort k_HSteamListenSocket_Invalid;
             EvFatalError "Failed to listen on port %d" [ArgInt nPort]]) ∧
  (∀ hListenSock t1 t2,
     CreateListenSocketIP nPort (transport w) = (hListenSock, t1) →
     hListenSock ≠ k_HSteamListenSocket_Invalid →
     CreatePollGroup t1 = (k_HSteamNetPollGroup_Invalid, t2) →
     ∃ w',
       Run fuel nPort w = Stop FatalExit w' ∧
       trace w' = trace w
         ++ [EvCreateListenSocketIP nPort hListenSock;
             EvCreatePollGroup k_HSteamNetPollGroup_Invalid;
             EvFatalError "Failed to listen on port %d" [ArgInt nPort]]) ∧
  (∀ numMsgs pIncomingMsg t1,
     g_bQuit w = false →
     ReceiveMessagesOnPollGroup (m_hPollGroup w) 1 (transport w)
       = ((numMsgs, pIncomingMsg), t1) →
     numMsgs < 0 →
     ∃ w',
       PollIncomingMessages (S fuel) w = Stop FatalExit w' ∧
       Run_loop (S fuel) w = Stop FatalExit w' ∧
       trace w' = trace w
         ++ [EvReceiveMessagesOnPollGroup (m_hPollGroup w) 1 numMsgs
               pIncomingMsg;
             EvFatalError "Error checking for messages" []]).
Proof.
  split; [|split].
  - intros t1 Hls. unfold Run, Run_listen. run. rewrite Hls. simpl.
    eexists. split; [done|]. simpl. by rewrite <- !app_assoc.
  - intros ls t1 t2 Hls Hne Hpg. unfold Run, Run_listen. run.
    rewrite Hls. simpl.
    destruct (Z.eqb_spec ls k_HSteamListenSocket_Invalid) as [?|_]; [done|].
    simpl. rewrite Hpg. simpl.
    eexists. split; [done|]. simpl. by rewrite <- !app_assoc.
  - intros numMsgs pMsg t1 Hq Hrecv Hneg.
    assert (∃ w', PollIncomingMessages (S fuel) w = Stop FatalExit w' ∧
                  trace w' = trace w
                    ++ [EvReceiveMessagesOnPollGroup (m_hPollGroup w) 1
                          numMsgs pMsg;
                        EvFatalError "Error checking for messages" []])
      as (w' & Hpoll & Htr).
    { simpl. rewrite Hq. unfold PollIncomingMessages_body. run.
      rewrite Hrecv. simpl.
      destruct (Z.eqb_spec numMsgs 0) as [?|_]; [lia|].
      destruct (Z.ltb_spec numMsgs 0) as [_|?]; [|lia]. simpl.
      eexists. split; [done|]. simpl. by rewrite <- !app_assoc. }
    exists w'. split; [done|]. split; [|done].
    cbn [Run_loop]. rewrite Hq. unfold mbind at 1, M_bind at 1.
    by rewrite Hpoll.
Qed.

End RunClaims.

(** * The theorems on concrete runs *)

Lemma C1_failed_connecting_breaks_agreement_witness :
  reachable (Scripted.world Runs.refusing ∅ []) ∧
  registry_agrees (Scripted.world Runs.refusing ∅ []) ∧
  ∃ w',
    OnSteamNetConnectionStatusChanged
      (Scripted.event 7 k_ESteamNetworkingConnectionState_Connecting
         k_ESteamNetworkingConnectionState_None)
      (Scripted.world Runs.refusing ∅ []) = Ok tt w' ∧
    7 ∈ dom (m_mapClients w') ∧
    (7 ∉ accepted_open (trace w')) ∧
    ¬ registry_agrees w'.
Proof.
  split; [by apply reachable_start|].
  split; [intros h Hh; simpl in Hh; by rewrite dom_empty_L in Hh|].
  apply (C1_failed_connecting_breaks_agreement
           (Scripted.world Runs.refusing ∅ [])
           (Scripted.event 7 k_ESteamNetworkingConnectionState_Connecting
              k_ESteamNetworkingConnectionState_None)
           (k_EResultOther 8) Runs.refusing true Runs.refusing);
    [reflexivity | reflexivity | reflexivity | reflexivity | by left].
Defined.

(** The state with the stale record is a reachable one: the fresh server
    polls its callbacks once and is delivered the refused connection. *)
Lemma stale_record_is_reachable :
  ∃ w' : @World Scripted.Script,
    reachable w' ∧ 7 ∈ dom (m_mapClients w') ∧ ¬ registry_agrees w'.
Proof.
  eexists. split; [|split].
  - eapply reachable_step.
    + by apply (reachable_start
                  (Scripted.world
                     (Scripted.mkScript 1 1 [7] [] []
                        [[Scripted.event 7
                            k_ESteamNetworkingConnectionState_Connecting
                            k_ESteamNetworkingConnectionState_None]])
                     ∅ [])).
    + apply step_status. reflexivity.
  - apply (bool_decide_unpack _). by vm_compute.
  - intros Hagree. specialize (Hagree 7).
    apply (bool_decide_pack _) in Hagree. by vm_compute in Hagree.
Qed.

Lemma C2_long_payload_overflows_before_broadcast_witness :
  ∃ w',
    PollIncomingMessages_body MoreRuns.long_winded
      = Stop UndefinedBehaviour w' ∧
    send_targets (drop 2 (trace w')) = [].
Proof.
  destruct (C2_long_payload_overflows_before_broadcast MoreRuns.long_winded
              MoreRuns.long_message (Scripted.mkScript 1 1 [] [] [] []) 2)
    as (w' & Hrun & _ & Hsent);
    [reflexivity | by eexists | reflexivity | by vm_compute |].
  exists w'. split; [exact Hrun | exact Hsent].
Defined.

Lemma C3_sender_lookup_needs_registered_sender_witness :
  (∃ w', PollIncomingMessages_body Runs.stranger
         = Stop UndefinedBehaviour w') ∧
  (∃ w', PollIncomingMessages_body Runs.chatting = Ok Continue w' ∧
         senders_registered w').
Proof.
  split.
  - destruct (C3_sender_lookup_needs_registered_sender Runs.stranger
                Runs.hello (Scripted.mkScript 1 1 [] [] [] []))
      as (Habsent & _); [reflexivity|].
    apply Habsent. reflexivity.
  - destruct (C3_sender_lookup_needs_registered_sender Runs.chatting
                Runs.hello (Scripted.mkScript 1 1 [] [] [] []))
      as (_ & _ & Hmember & _); [reflexivity|].
    destruct Hmember as [_ Hpass].
    + unfold senders_registered. apply (bool_decide_unpack _). by vm_compute.
    + apply (bool_decide_unpack _). by vm_compute.
    + apply Hpass. by vm_compute.
Defined.

Lemma C4_failed_connecting_keeps_record_witness :
  ∃ w',
    OnSteamNetConnectionStatusChanged
      (Scripted.event 7 k_ESteamNetworkingConnectionState_Connecting
         k_ESteamNetworkingConnectionState_None)
      (Scripted.world Runs.refusing ∅ []) = Ok tt w' ∧
    m_mapClients w' !! 7 = Some mkClient_t ∧
    trace w' =
      [EvPrintf "Connection request from %s" [ArgStr "peer"];
       EvAcceptConnection 7 (k_EResultOther 8);
       EvCloseConnection 7 0 None false;
       EvPrintf "Can't accept connection.  (It was already closed?)" []].
Proof.
  destruct (C4_failed_connecting_keeps_record
              (Scripted.world Runs.refusing ∅ [])
              (Scripted.event 7 k_ESteamNetworkingConnectionState_Connecting
                 k_ESteamNetworkingConnectionState_None)
              (k_EResultOther 8) Runs.refusing true Runs.refusing)
    as (w' & Hrun & _ & Hrec & Htr);
    [reflexivity | reflexivity | reflexivity | reflexivity | by left |].
  exists w'. split; [exact Hrun|]. split; [exact Hrec | exact Htr].
Defined.

Lemma C5_connected_close_reads_unassigned_pointer_witness :
  OnSteamNetConnectionStatusChanged
    (Scripted.event 1 k_ESteamNetworkingConnectionState_ClosedByPeer
       k_ESteamNetworkingConnectionState_Connected)
    Runs.chatting = Stop UndefinedBehaviour Runs.chatting ∧
  (∃ w',
     OnSteamNetConnectionStatusChanged
       (Scripted.event 2
          k_ESteamNetworkingConnectionState_ProblemDetectedLocally
          k_ESteamNetworkingConnectionState_Connecting)
       Runs.chatting = Ok tt w' ∧
     m_mapClients w' = Runs.three_clients ∧
     trace w' = trace Runs.chatting ++ [EvCloseConnection 2 0 None false]).
Proof.
  split.
  - destruct (C5_connected_close_reads_unassigned_pointer Runs.chatting
                (Scripted.event 1
                   k_ESteamNetworkingConnectionState_ClosedByPeer
                   k_ESteamNetworkingConnectionState_Connected))
      as (Hconnected & _); [by left|].
    apply Hconnected; [reflexivity | by eexists].
  - destruct (C5_connected_close_reads_unassigned_pointer Runs.chatting
                (Scripted.event 2
                   k_ESteamNetworkingConnectionState_ProblemDetectedLocally
                   k_ESteamNetworkingConnectionState_Connecting))
      as (_ & Hconnecting); [by right|].
    destruct Hconnecting as (w' & Hrun & Hmap & Htr); [reflexivity|].
    exists w'. split; [exact Hrun|]. split; [exact Hmap | exact Htr].
Defined.

(** C6 as stated fails: the reader thread puts a line of three spaces and
    a newline into the queue as it is, although nothing is left of the
    line after trimming. *)
Lemma C6_blank_line_is_enqueued :
  ∃ w',
    LocalUserInput_thread [nl "   "] (Scripted.world Scripted.quiet ∅ [])
      = Ok tt w' ∧
    queueUserInput w' = [nl "   "] ∧
    Trim.trim (nl "   ") = EmptyString ∧
    ¬ Trim.trimmed (nl "   ").
Proof.
  eexists. split; [reflexivity|]. split; [reflexivity|].
  split; [reflexivity|]. intros [Hhead _].
  by specialize (Hhead " "%char eq_refl).
Qed.

Lemma C6_trimmed_when_dequeued_witness :
  (∃ w1,
     LocalUserInput_thread [nl "  /quit  "; nl "   "]
       (Scripted.world Scripted.quiet ∅ []) = Ok tt w1 ∧
     queueUserInput w1 = [nl "  /quit  "; nl "   "]) ∧
  (∃ w3,
     LocalUserInput_GetNext EmptyString
       (Scripted.world Scripted.quiet ∅ [nl "   "; nl "  /quit  "; nl "x"])
     = Ok (true, "/quit"%string) w3 ∧
     queueUserInput w3 = [nl "x"]).
Proof.
  destruct (C6_trimmed_when_dequeued
              [nl "  /quit  "; nl "   "]
              (Scripted.world Scripted.quiet ∅ [])
              EmptyString
              (Scripted.world Scripted.quiet ∅
                 [nl "   "; nl "  /quit  "; nl "x"]))
    as [(w1 & Hrun & Hqueue) _]; [reflexivity|].
  split; [by exists w1|]. eexists. split; reflexivity.
Defined.

Lemma C7_surrounding_whitespace_is_ignored_witness :
  PollLocalUserInput
    (Scripted.world Scripted.quiet ∅ [nl "  /quit  "; "next"%string])
  = PollLocalUserInput
      (Scripted.world Scripted.quiet ∅ ["/quit"%string; "next"%string]) ∧
  ∃ w',
    PollLocalUserInput
      (Scripted.world Scripted.quiet ∅ [nl "  /quit  "; "next"%string])
    = Ok tt w' ∧
    g_bQuit w' = true ∧ queueUserInput w' = ["next"%string].
Proof.
  destruct (C7_surrounding_whitespace_is_ignored
              "  " "/quit" (nl "  ") ["next"%string]
              (Scripted.world Scripted.quiet ∅ []))
    as [Heq Hquit]; [reflexivity | reflexivity | reflexivity |].
  split; [exact Heq | by apply Hquit].
Defined.

Lemma C8_shutdown_sequence_witness :
  ∃ w',
    (Run_loop 0 ;; Run_shutdown) Runs.quitting = Ok tt w' ∧
    send_targets (trace w') = [1; 2; 3] ∧
    m_mapClients w' = ∅.
Proof.
  destruct (C8_shutdown_sequence 0 Runs.quitting)
    as (w' & Hrun & Htr & _ & _ & Hmap & _); [reflexivity|].
  exists w'. split; [exact Hrun|]. split; [|exact Hmap].
  rewrite Htr. reflexivity.
Defined.

Lemma C9_console_line_effect_witness :
  (∃ w',
     PollLocalUserInput_body "/foo"
       (Scripted.world Scripted.quiet Runs.three_clients []) = Ok Continue w' ∧
     m_mapClients w' = Runs.three_clients ∧
     g_bQuit w' = false ∧
     trace w' = [EvPrintf "The server only knows one command: '/quit'" []]) ∧
  (∃ w',
     PollLocalUserInput_loop 3 EmptyString
       (Scripted.world Scripted.quiet Runs.three_clients
          [nl "/quit"; nl "/foo"]) = Ok tt w' ∧
     g_bQuit w' = true ∧
     queueUserInput w' = [nl "/foo"]).
Proof.
  split.
  - destruct (C9_console_line_effect EmptyString "/foo" 0
                (Scripted.world Scripted.quiet Runs.three_clients [nl " /foo"])
                (Scripted.world Scripted.quiet Runs.three_clients []))
      as [Hother _]; [reflexivity | reflexivity |].
    destruct Hother as (w' & Hrun & Hmap & Hq & Htr & _); [done|].
    exists w'. by repeat split.
  - destruct (C9_console_line_effect EmptyString "/quit" 2
                (Scripted.world Scripted.quiet Runs.three_clients
                   [nl "/quit"; nl "/foo"])
                (Scripted.world Scripted.quiet Runs.three_clients [nl "/foo"]))
      as [_ Hquit]; [reflexivity | reflexivity |].
    destruct Hquit as (w' & Hrun & Hq & Hqueue & _); [done|].
    exists w'. by repeat split.
Defined.

Lemma C10_fatal_conditions_witness :
  (∃ w',
     Run 1 27020 (Scripted.world (Scripted.mkScript 0 1 [] [] [] []) ∅ [])
     = Stop FatalExit w') ∧
  (∃ w',
     Run 1 27020 (Scripted.world (Scripted.mkScript 1 0 [] [] [] []) ∅ [])
     = Stop FatalExit w') ∧
  (∃ w',
     Run_loop 1
       (Scripted.world (Scripted.mkScript 1 1 [] [] [(-1, None)] []) ∅ [])
     = Stop FatalExit w').
Proof.
  split; [|split].
  - destruct (C10_fatal_conditions 1 27020
                (Scripted.world (Scripted.mkScript 0 1 [] [] [] []) ∅ []))
      as (Hlisten & _).
    destruct (Hlisten (Scripted.mkScript 0 1 [] [] [] []))
      as (w' & Hrun & _); [reflexivity|]. by exists w'.
  - destruct (C10_fatal_conditions 1 27020
                (Scripted.world (Scripted.mkScript 1 0 [] [] [] []) ∅ []))
      as (_ & Hgroup & _).
    destruct (Hgroup 1 (Scripted.mkScript 1 0 [] [] [] [])
                (Scripted.mkScript 1 0 [] [] [] []))
      as (w' & Hrun & _); [reflexivity | done | reflexivity |]. by exists w'.
  - destruct (C10_fatal_conditions 0 27020
                (Scripted.world
                   (Scripted.mkScript 1 1 [] [] [(-1, None)] []) ∅ []))
      as (_ & _ & Hrecv).
    destruct (Hrecv (-1) None (Scripted.mkScript 1 1 [] [] [] []))
      as (w' & _ & Hrun & _); [reflexivity | reflexivity | lia |].
    by exists w'.
Defined.

(** * Further properties of the code *)

(** ** Trimming and C strings *)

Module MoreTrimFacts.
Import Trim TrimFacts.

Lemma ltrim_id (s : string) :
  (∀ ch, head_char s = Some ch → isspace ch = false) → ltrim s = s.
Proof.
  destruct s as [|c s]; [done|]. intros H. simpl.
  by rewrite (H c eq_refl).
Qed.

Lemma rtrim_id (s : string) :
  (∀ ch, last_char s = Some ch → isspace ch = false) → rtrim s = s.
Proof.
  intros H. unfold rtrim. rewrite ltrim_id by exact H.
  apply rev_string_involutive.
Qed.

Lemma rtrim_all_space (s : string) : all_space s = true → rtrim s = EmptyString.
Proof.
  intros H. unfold rtrim.
  assert (ltrim (rev_string s) = EmptyString) as ->; [|done].
  apply ltrim_empty_iff. by rewrite all_space_rev.
Qed.

Lemma rtrim_app_keep (s t : string) :
  rtrim t ≠ EmptyString → rtrim (String.append s t) = String.append s (rtrim t).
Proof.
  intros Ht. unfold rtrim in *. rewrite rev_string_app.
  rewrite ltrim_app_keep.
  - by rewrite rev_string_app, rev_string_involutive.
  - intros Hempty. apply Ht. by rewrite Hempty.
Qed.

Lemma trim_split (s : string) :
  ∃ ws1 ws2,
    all_space ws1 = true ∧ all_space ws2 = true ∧
    s = String.append ws1 (String.append (trim s) ws2).
Proof.
  destruct (ltrim_split s) as (ws1 & H1 & Hs).
  destruct (rtrim_split (ltrim s)) as (ws2 & H2 & Hl).
  exists ws1, ws2. split; [done|]. split; [done|].
  unfold trim. by rewrite <- Hl.
Qed.

Lemma trim_blank (s : string) : all_space s = true → trim s = EmptyString.
Proof.
  intros Hblank. unfold trim.
  by assert (ltrim s = EmptyString) as -> by (by apply ltrim_empty_iff).
Qed.

Lemma trim_id (x : string) : trimmed x → trim x = x.
Proof.
  intros [Hhead Hlast]. unfold trim.
  rewrite (ltrim_id x Hhead). by apply rtrim_id.
Qed.

(** X1. Trimming takes away the whitespace at the two ends, all of it and
    nothing else: every string is its trimmed form between two runs of
    whitespace, the trimmed form carries whitespace at neither end, and it
    is the only such middle part, so that however a string is cut into
    whitespace, a part with whitespace at neither end, and whitespace,
    trimming returns that part. *)
Theorem trim_only_removes_surrounding_whitespace (s : string) :
  (∃ ws1 ws2,
     all_space ws1 = true ∧ all_space ws2 = true ∧
     s = String.append ws1 (String.append (trim s) ws2)) ∧
  trimmed (trim s) ∧
  (∀ ws1 x ws2,
     all_space ws1 = true → all_space ws2 = true → trimmed x →
     s = String.append ws1 (String.append x ws2) → trim s = x).
Proof.
  split; [apply trim_split|]. split; [apply trim_trimmed|].
  intros ws1 x ws2 H1 H2 Hx ->.
  rewrite trim_surrounded by done. by apply trim_id.
Qed.

(** X2. A string with whitespace at neither end is left as it is, so
    trimming twice is trimming once. *)
Theorem trim_fixes_trimmed_strings (s : string) :
  (trimmed s → trim s = s) ∧ trim (trim s) = trim s.
Proof.
  assert (∀ x, trimmed x → trim x = x) as Hfix.
  { intros x [Hhead Hlast]. unfold trim.
    rewrite (ltrim_id x Hhead). by apply rtrim_id. }
  split; [apply Hfix|]. apply Hfix, trim_trimmed.
Qed.

(** X3. Trimming leaves the empty string exactly for the strings that
    consist of whitespace only: these are the lines [LocalUserInput_GetNext]
    skips. *)
Theorem trim_empty_iff_blank (s : string) :
  trim s = EmptyString ↔ all_space s = true.
Proof.
  split.
  - intros Hempty. destruct (trim_split s) as (ws1 & ws2 & H1 & H2 & Hs).
    rewrite Hs, Hempty, append_nil_l. by rewrite all_space_app, H1, H2.
  - apply trim_blank.
Qed.

(** X4. The order of the two trims does not matter. *)
Theorem ltrim_rtrim_commute (s : string) :
  rtrim (ltrim s) = ltrim (rtrim s).
Proof.
  destruct (trim_split s) as (ws1 & ws2 & H1 & H2 & Hs).
  fold (trim s). set (x := trim s) in *.
  assert (rtrim s = rtrim (String.append ws1 x)) as ->.
  { rewrite Hs at 1. by rewrite <- append_assoc, rtrim_skip. }
  destruct (decide (x = EmptyString)) as [Hx|Hx].
  - rewrite Hx, append_nil_r, rtrim_all_space by done. done.
  - assert (trimmed x) as [Hhead Hlast] by apply trim_trimmed.
    rewrite rtrim_app_keep by (by rewrite rtrim_id).
    rewrite (rtrim_id x Hlast), ltrim_skip by done.
    by rewrite ltrim_id.
Qed.

End MoreTrimFacts.

Lemma trim_only_removes_surrounding_whitespace_witness :
  Trim.trim "  /quit  " = "/quit"%string.
Proof.
  destruct (MoreTrimFacts.trim_only_removes_surrounding_whitespace
              "  /quit  ") as (_ & _ & Hmiddle).
  apply (Hmiddle "  " "/quit" "  ")%string; [reflexivity | reflexivity | |
                                            reflexivity].
  split; intros ch [= <-]; reflexivity.
Defined.

Lemma trim_fixes_trimmed_strings_witness :
  Trim.trim "/quit" = "/quit"%string.
Proof.
  destruct (MoreTrimFacts.trim_fixes_trimmed_strings "/quit") as [Hfix _].
  apply Hfix. split; intros ch [= <-]; reflexivity.
Defined.

Module CStrFacts.
Import CStr.

Lemma c_str_no_NUL (s : string) : has_NUL (c_str s) = false.
Proof.
  induction s as [|c s IH]; simpl; [done|].
  destruct (Ascii.eqb c NUL) eqn:Hc; simpl; [done|]. by rewrite Hc.
Qed.

Lemma c_str_id (s : string) : has_NUL s = false → c_str s = s.
Proof.
  induction s as [|c s IH]; simpl; [done|].
  destruct (Ascii.eqb c NUL); simpl; [done|]. intros H. by rewrite IH.
Qed.

Lemma has_NUL_app (a b : string) :
  has_NUL (String.append a b) = has_NUL a || has_NUL b.
Proof.
  induction a as [|c a IH]; TrimFacts.str_simpl; [done|].
  by rewrite IH, orb_assoc.
Qed.

Lemma c_str_cut (a b : string) :
  has_NUL a = false → c_str (String.append a (String NUL b)) = a.
Proof.
  induction a as [|c a IH]; TrimFacts.str_simpl; [done|].
  destruct (Ascii.eqb c NUL); simpl; [done|]. intros H. by rewrite IH.
Qed.

Lemma c_str_cuts_at_NUL (s : string) :
  has_NUL s = true → ∃ rest, s = String.append (c_str s) (String NUL rest).
Proof.
  induction s as [|c s IH]; simpl; [done|].
  destruct (Ascii.eqb_spec c NUL) as [->|Hc]; simpl.
  - intros _. by exists s.
  - intros H. destruct (IH H) as [rest Hrest]. exists rest.
    TrimFacts.str_simpl. by rewrite <- Hrest.
Qed.

(** X5. The C-string view of a buffer is the part of the buffer before
    its first NUL: the whole buffer when that holds no NUL, and otherwise
    the NUL-free part that the buffer's first NUL follows; whatever comes
    after that NUL does not matter.  It is never longer than the buffer. *)
Theorem c_str_is_prefix_before_NUL (s : string) :
  (has_NUL s = false → c_str s = s) ∧
  (has_NUL s = true →
   ∃ rest, s = String.append (c_str s) (String NUL rest)) ∧
  has_NUL (c_str s) = false ∧
  (∀ a b, has_NUL a = false → s = String.append a (String NUL b) →
          c_str s = a) ∧
  0 ≤ strlen s ≤ Z.of_nat (String.length s).
Proof.
  split; [apply c_str_id|]. split; [apply c_str_cuts_at_NUL|].
  split; [apply c_str_no_NUL|]. split.
  - intros a b Ha ->. by apply c_str_cut.
  - unfold strlen. split; [lia|]. apply inj_le.
    induction s as [|c s IH]; simpl; [done|].
    destruct (Ascii.eqb c NUL); simpl; lia.
Qed.

Lemma strip_newline_nl (s : string) :
  has_NUL s = false → strip_newline (nl s) = s.
Proof.
  intros H. unfold strip_newline, nl.
  rewrite c_str_id by (rewrite has_NUL_app, H; reflexivity).
  rewrite TrimFacts.rev_string_app. TrimFacts.str_simpl.
  apply TrimFacts.rev_string_involutive.
Qed.

(** X7. The text handed to [DebugOutput] is the formatted text without
    one trailing newline: a text that ends in a newline loses exactly that
    one character, any other text (the empty one included) is printed as
    it is. *)
Theorem strip_newline_removes_one_trailing_newline (s : string) :
  has_NUL s = false →
  strip_newline (nl s) = s ∧
  (Trim.last_char s ≠ Some "010"%char → strip_newline s = s).
Proof.
  intros H. split; [by apply strip_newline_nl|].
  unfold strip_newline, Trim.last_char. rewrite c_str_id by done.
  destruct (Trim.rev_string s) as [|ch r]; [done|]. simpl.
  destruct (Ascii.eqb_spec ch "010"%char) as [->|?]; [|done].
  intros Hne. by destruct Hne.
Qed.

End CStrFacts.

Lemma c_str_is_prefix_before_NUL_witness :
  CStr.c_str "/quit" = "/quit"%string ∧
  CStr.c_str (m_pData MoreRuns.with_NUL) = "ab"%string.
Proof.
  destruct (CStrFacts.c_str_is_prefix_before_NUL "/quit") as (Hid & _).
  destruct (CStrFacts.c_str_is_prefix_before_NUL (m_pData MoreRuns.with_NUL))
    as (_ & _ & _ & Hcut & _).
  split; [by apply Hid|]. by apply (Hcut "ab" "cd")%string.
Defined.

Lemma strip_newline_removes_one_trailing_newline_witness :
  strip_newline (nl "Closing connections...") = "Closing connections..."%string ∧
  strip_newline (nl (nl "a")) = nl "a" ∧
  strip_newline "Shutting down server" = "Shutting down server"%string.
Proof.
  split; [|split].
  - by apply (CStrFacts.strip_newline_removes_one_trailing_newline
                "Closing connections...").
  - by apply (CStrFacts.strip_newline_removes_one_trailing_newline (nl "a")).
  - by apply (CStrFacts.strip_newline_removes_one_trailing_newline
                "Shutting down server").
Defined.

(** ** More on console input *)

Lemma delivered_cons (line : string) (queue : list string) :
  delivered (line :: queue) =
    if decide (Trim.trim line = EmptyString) then delivered queue
    else Trim.trim line :: delivered queue.
Proof.
  unfold delivered. rewrite fmap_cons, filter_cons.
  by destruct (decide (Trim.trim line = EmptyString));
    [rewrite decide_False by auto | rewrite decide_True by auto].
Qed.

Lemma delivered_blank (queue : list string) :
  Forall (λ line, Trim.all_space line = true) queue → delivered queue = [].
Proof.
  induction 1 as [|line queue Hline _ IH]; [done|].
  rewrite delivered_cons, decide_True; [done|].
  by apply MoreTrimFacts.trim_blank.
Qed.

(** The loop of [LocalUserInput_GetNext] takes the first delivered line. *)
Lemma GetNext_loop_delivered (queue : list string) (result : string) :
  match GetNext_loop queue result with
  | (true, cmd, queue') =>
      delivered queue = cmd :: delivered queue' ∧
      (length queue' < length queue)%nat
  | (false, cmd, queue') =>
      delivered queue = [] ∧ queue' = [] ∧
      cmd = match queue with [] => result | _ => EmptyString end
  end.
Proof.
  revert result. induction queue as [|front queue IH]; intros result.
  - done.
  - cbn [GetNext_loop]. fold (Trim.trim front). rewrite delivered_cons.
    destruct (String.eqb_spec (Trim.trim front) EmptyString) as [Hb|Hb];
      cbn [negb].
    + rewrite decide_True by done. specialize (IH (Trim.trim front)).
      destruct (GetNext_loop queue (Trim.trim front)) as [[[] cmd] queue'].
      * destruct IH as [Hd Hlen]. split; [done|]. simpl. lia.
      * destruct IH as (Hd & Hq & Hcmd). split; [done|]. split; [done|].
        rewrite Hcmd. by destruct queue.
    + rewrite decide_False by done. split; [done|]. simpl. lia.
Qed.

Section MoreConsole.

Context {T : Type} `{iface : ISteamNetworkingSockets T}.
Implicit Types (w : @World T).

(** X8. [LocalUserInput_GetNext] hands out the queued lines in queue
    order, trimmed, skipping the blank ones: when it has input, the line
    is the first delivered line of the queue and the rest stays queued;
    when it has none, there was no such line and the queue is now empty.
    Nothing but the queue changes. *)
Theorem GetNext_takes_first_delivered_line result w :
  ∃ got cmd w',
    LocalUserInput_GetNext result w = Ok (got, cmd) w' ∧
    (if got : bool
     then delivered (queueUserInput w) = cmd :: delivered (queueUserInput w')
     else delivered (queueUserInput w) = [] ∧ queueUserInput w' = []) ∧
    w' = set_queueUserInput (queueUserInput w') w.
Proof.
  unfold LocalUserInput_GetNext.
  pose proof (GetNext_loop_delivered (queueUserInput w) result) as Hspec.
  destruct (GetNext_loop _ _) as [[got cmd] queue'].
  exists got, cmd. eexists. split; [done|]. simpl. split; [|done].
  destruct got; [apply Hspec|]. by destruct Hspec as (? & ? & _).
Qed.

(** X9. Without input, [result] is only kept when the queue was empty: if
    blank lines were skipped, the caller's string comes back empty. *)
Theorem GetNext_without_input_clobbers_result result w :
  Forall (λ line, Trim.all_space line = true) (queueUserInput w) →
  LocalUserInput_GetNext result w
  = Ok (false, match queueUserInput w with
               | [] => result
               | _ => EmptyString
               end)
       (set_queueUserInput [] w).
Proof.
  intros Hblank. unfold LocalUserInput_GetNext.
  pose proof (GetNext_loop_delivered (queueUserInput w) result) as Hspec.
  pose proof (delivered_blank _ Hblank) as Hnone.
  destruct (GetNext_loop _ _) as [[[] cmd] queue'].
  - destruct Hspec as [Hd _]. by rewrite Hnone in Hd.
  - by destruct Hspec as (_ & -> & ->).
Qed.

(** The console loop on a queue whose delivered lines are [cmds]. *)
Lemma PollLocalUserInput_loop_no_quit fuel cmd0 w :
  (length (queueUserInput w) < fuel)%nat →
  g_bQuit w = false →
  Forall (λ cmd, is_quit cmd = false) (delivered (queueUserInput w)) →
  PollLocalUserInput_loop fuel cmd0 w
  = Ok tt (mkWorld false [] (m_hListenSock w) (m_hPollGroup w)
             (m_mapClients w) (transport w)
             (trace w ++ replicate (length (delivered (queueUserInput w)))
                           unknown_command)).
Proof.
  revert cmd0 w. induction fuel as [|fuel IH]; intros cmd0 w Hlen Hq Hcmds;
    [lia|].
  rewrite PollLocalUserInput_loop_step by done.
  pose proof (GetNext_loop_delivered (queueUserInput w) cmd0) as Hspec.
  destruct (GetNext_loop _ _) as [[[] cmd] queue'].
  - destruct Hspec as [Hd Hshort]. rewrite Hd in Hcmds |- *.
    apply Forall_cons in Hcmds as [Hcmd Hrest]. unfold is_quit in Hcmd.
    rewrite Hcmd. rewrite IH; simpl; [|lia|done|done].
    f_equal. f_equal. by rewrite <- app_assoc.
  - destruct Hspec as (-> & -> & _). simpl. rewrite app_nil_r.
    destruct w; simpl in *. by subst.
Qed.

Lemma PollLocalUserInput_loop_first_quit fuel cmd0 w before quit after :
  (length (queueUserInput w) < fuel)%nat →
  g_bQuit w = false →
  delivered (queueUserInput w) = before ++ quit :: after →
  Forall (λ cmd, is_quit cmd = false) before →
  is_quit quit = true →
  ∃ w',
    PollLocalUserInput_loop fuel cmd0 w = Ok tt w' ∧
    g_bQuit w' = true ∧
    delivered (queueUserInput w') = after ∧
    trace w' = trace w ++ replicate (length before) unknown_command
                 ++ [EvPrintf "Shutting down server" []] ∧
    m_mapClients w' = m_mapClients w ∧ transport w' = transport w.
Proof.
  revert cmd0 w before.
  induction fuel as [|fuel IH]; intros cmd0 w before Hlen Hq Hd Hbefore Hquit;
    [lia|].
  rewrite PollLocalUserInput_loop_step by done.
  pose proof (GetNext_loop_delivered (queueUserInput w) cmd0) as Hspec.
  destruct (GetNext_loop _ _) as [[[] cmd] queue'].
  - destruct Hspec as [Hd' Hshort]. rewrite Hd in Hd'.
    destruct before as [|b before].
    + injection Hd' as <- Hafter. unfold is_quit in Hquit. rewrite Hquit.
      eexists. split; [done|]. by repeat split.
    + injection Hd' as <- Hrest. apply Forall_cons in Hbefore as [Hb Hbefore].
      unfold is_quit in Hb. rewrite Hb.
      destruct (IH b
                  (log (EvPrintf "The server only knows one command: '/quit'" [])
                     (set_queueUserInput queue' w)) before)
        as (w' & Hrun & Hq' & Hd'' & Htr & Hmap & Htrans);
        [simpl; lia | done | done | done | done |].
      exists w'. split; [done|]. split; [done|]. split; [done|].
      split; [|done]. rewrite Htr. simpl. by rewrite <- app_assoc.
  - destruct Hspec as (Hnone & _). rewrite Hd in Hnone.
    by destruct before.
Qed.

(** X10. With no quit directive among the queued lines,
    [PollLocalUserInput] empties the queue and logs one diagnostic per
    non-blank line, none for the blank ones; the quit flag stays clear and
    nothing else changes. *)
Theorem PollLocalUserInput_without_quit w :
  g_bQuit w = false →
  Forall (λ cmd, is_quit cmd = false) (delivered (queueUserInput w)) →
  ∃ w',
    PollLocalUserInput w = Ok tt w' ∧
    g_bQuit w' = false ∧ queueUserInput w' = [] ∧
    trace w' = trace w ++ replicate (length (delivered (queueUserInput w)))
                            unknown_command ∧
    m_mapClients w' = m_mapClients w ∧ transport w' = transport w.
Proof.
  intros Hq Hcmds. unfold PollLocalUserInput.
  rewrite PollLocalUserInput_loop_no_quit by (done || lia).
  eexists. split; [done|]. by repeat split.
Qed.

(** X11. With a quit directive queued, [PollLocalUserInput] logs one
    diagnostic for each non-blank line before the first one, sets the
    quit flag, logs the shutdown, and stops: what was queued behind the
    directive is still queued. *)
Theorem PollLocalUserInput_stops_at_first_quit w before quit after :
  g_bQuit w = false →
  delivered (queueUserInput w) = before ++ quit :: after →
  Forall (λ cmd, is_quit cmd = false) before →
  is_quit quit = true →
  ∃ w',
    PollLocalUserInput w = Ok tt w' ∧
    g_bQuit w' = true ∧
    delivered (queueUserInput w') = after ∧
    trace w' = trace w ++ replicate (length before) unknown_command
                 ++ [EvPrintf "Shutting down server" []] ∧
    m_mapClients w' = m_mapClients w ∧ transport w' = transport w.
Proof.
  intros Hq Hd Hbefore Hquit. unfold PollLocalUserInput.
  apply (PollLocalUserInput_loop_first_quit _ _ w before quit after);
    (done || lia).
Qed.

End MoreConsole.

Section MoreReader.

Context {T : Type} `{iface : ISteamNetworkingSockets T}.
Implicit Types (w : @World T).

Lemma LocalUserInput_thread_at_failure stdin w :
  g_bQuit w = false →
  LocalUserInput_thread stdin w
  = Ok tt (mkWorld true (queueUserInput w ++ (CStr.c_str <$> stdin))
             (m_hListenSock w) (m_hPollGroup w) (m_mapClients w)
             (transport w)
             (trace w
              ++ [EvPrintf (nl "Failed to read on stdin, quitting") []])).
Proof.
  revert w. induction stdin as [|szLine stdin IH]; intros w Hq; simpl.
  - rewrite Hq. run. by rewrite app_nil_r.
  - rewrite Hq. run. rewrite IH by done. simpl. by rewrite <- app_assoc.
Qed.

Lemma PollLocalUserInput_quit_set w :
  g_bQuit w = true → PollLocalUserInput w = Ok tt w.
Proof. intros Hq. unfold PollLocalUserInput. simpl. by rewrite Hq. Qed.

(** X12. The reader thread queues every line it reads, in reading order
    and cut at the first NUL, behind what is already queued; when the read
    fails it sets the quit flag and logs one line.  It touches nothing
    else and calls nothing in the transport. *)
Theorem LocalUserInput_thread_reads_until_failure stdin w :
  g_bQuit w = false →
  LocalUserInput_thread stdin w
  = Ok tt (mkWorld true (queueUserInput w ++ (CStr.c_str <$> stdin))
             (m_hListenSock w) (m_hPollGroup w) (m_mapClients w)
             (transport w)
             (trace w
              ++ [EvPrintf (nl "Failed to read on stdin, quitting") []])) ∧
  Forall (λ line, has_NUL line = false) (CStr.c_str <$> stdin).
Proof.
  intros Hq. split; [by apply LocalUserInput_thread_at_failure|].
  apply Forall_fmap, Forall_forall. intros line _.
  apply CStrFacts.c_str_no_NUL.
Qed.

(** X14. Lines that are still queued when reading fails are never
    processed: polling the console after the reader thread has ended
    changes nothing, the lines stay in the queue. *)
Theorem lines_queued_at_read_failure_stay_queued stdin w :
  g_bQuit w = false →
  ∃ w',
    (LocalUserInput_thread stdin ;; PollLocalUserInput) w = Ok tt w' ∧
    LocalUserInput_thread stdin w = Ok tt w' ∧
    queueUserInput w' = queueUserInput w ++ (CStr.c_str <$> stdin) ∧
    Forall is_print (drop (length (trace w)) (trace w')) ∧
    length (trace w') = S (length (trace w)).
Proof.
  intros Hq.
  pose proof (LocalUserInput_thread_at_failure stdin w Hq) as Hrun.
  eexists. split; [|split; [exact Hrun|]].
  - unfold mbind, M_bind. rewrite Hrun.
    by apply PollLocalUserInput_quit_set.
  - simpl. split; [done|]. rewrite drop_app_length, length_app. simpl.
    split; [by repeat constructor | lia].
Qed.

End MoreReader.

(** ** More on incoming messages *)

Lemma send_payloads_app (a b : list Event) :
  send_payloads (a ++ b) = send_payloads a ++ send_payloads b.
Proof. apply omap_app. Qed.

Lemma send_payloads_send_events str (l : list Z) :
  send_payloads (flat_map (send_events str) l)
  = replicate (length l) (str, CStr.strlen str).
Proof. induction l as [|c l IH]; simpl; [done | by rewrite IH]. Qed.

Lemma send_events_message_events str (l : list Z) :
  Forall is_message_event (flat_map (send_events str) l).
Proof. induction l; simpl; repeat constructor; done. Qed.

Lemma StronglySorted_filter_le (P : Z → Prop) `{∀ x, Decision (P x)}
    (l : list Z) :
  StronglySorted Z.le l → StronglySorted Z.le (filter P l).
Proof.
  induction 1 as [|x l Hl IH Hx]; [constructor|].
  rewrite filter_cons. destruct (decide (P x)); [|done].
  constructor; [done|]. apply Forall_forall. intros y Hy.
  apply list_elem_of_filter in Hy as [_ Hy].
  by eapply Forall_forall in Hx.
Qed.

Lemma filter_keeps_all (P : Z → Prop) `{∀ x, Decision (P x)} (l : list Z) :
  (∀ x, x ∈ l → P x) → filter P l = l.
Proof.
  induction l as [|x l IH]; intros Hall; [done|].
  rewrite filter_cons_True by (apply Hall; left).
  f_equal. apply IH. intros y Hy. apply Hall. by right.
Qed.

Section MoreMessages.

Context {T : Type} `{iface : ISteamNetworkingSockets T}.
Implicit Types (w : @World T) (h : Z) (msg : ISteamNetworkingMessage).

(** One pass of the message loop changes no program variable and only
    receives, releases, logs and sends. *)
Lemma PollIncomingMessages_body_frame w ctl w' :
  PollIncomingMessages_body w = Ok ctl w' →
  same_memory w w' ∧
  ∃ evs, trace w' = trace w ++ evs ∧ Forall is_message_event evs.
Proof.
  unfold PollIncomingMessages_body. run.
  destruct (ReceiveMessagesOnPollGroup _ _ _) as [[numMsgs pMsg] t1] eqn:Hrecv.
  simpl. destruct (numMsgs =? 0) eqn:H0.
  { intros [= _ <-]. split; [by repeat split|]. eexists [_].
    split; [done|]. by repeat constructor. }
  destruct (numMsgs <? 0); simpl; [done|].
  destruct (numMsgs =? 1) eqn:H1; simpl; [|done].
  destruct pMsg as [msg|]; simpl; [|done].
  unfold sprintf_into. destruct (_ <? _); run; [done|].
  destruct (m_mapClients w !! m_conn msg) as [c|] eqn:Hc; simpl; [|done].
  match goal with
  | |- context [SendStringToAllClients ?s ?e ?w0] =>
      destruct (SendStringToAllClients_run s e w0) as (w2 & Hrun & Htr & Hmem)
  end.
  rewrite Hrun. intros [= _ <-]. split.
  - eapply same_memory_trans; [|exact Hmem]. by repeat split.
  - eexists (_ :: _ :: flat_map _ _). split.
    + rewrite Htr. simpl. by rewrite <- !app_assoc.
    + repeat constructor. apply send_events_message_events.
Qed.

(** X15. With nothing to receive the message loop ends after the one
    receive call: no message is released, nothing is sent, no program
    variable changes. *)
Theorem PollIncomingMessages_without_messages fuel w pIncomingMsg t1 :
  g_bQuit w = false →
  ReceiveMessagesOnPollGroup (m_hPollGroup w) 1 (transport w)
    = ((0, pIncomingMsg), t1) →
  ∃ w',
    PollIncomingMessages (S fuel) w = Ok tt w' ∧
    trace w' = trace w
      ++ [EvReceiveMessagesOnPollGroup (m_hPollGroup w) 1 0 pIncomingMsg] ∧
    send_targets (trace w') = send_targets (trace w) ∧
    same_memory w w'.
Proof.
  intros Hq Hrecv. simpl. rewrite Hq.
  unfold PollIncomingMessages_body. run. rewrite Hrecv. simpl.
  eexists. split; [done|]. simpl. split; [done|].
  split; [|by repeat split]. rewrite send_targets_app. simpl.
  by rewrite app_nil_r.
Qed.

(** X16. A receive result that is positive but is not one message with a
    non-null pointer fails the assertion of line 316 right after the
    call: nothing is released or sent. *)
Theorem PollIncomingMessages_asserts_one_message w numMsgs pIncomingMsg t1 :
  ReceiveMessagesOnPollGroup (m_hPollGroup w) 1 (transport w)
    = ((numMsgs, pIncomingMsg), t1) →
  1 < numMsgs ∨ (numMsgs = 1 ∧ pIncomingMsg = None) →
  ∃ w',
    PollIncomingMessages_body w = Stop AssertionFailed w' ∧
    trace w' = trace w
      ++ [EvReceiveMessagesOnPollGroup (m_hPollGroup w) 1 numMsgs
            pIncomingMsg].
Proof.
  intros Hrecv Hbad. unfold PollIncomingMessages_body. run.
  rewrite Hrecv. simpl.
  destruct (Z.eqb_spec numMsgs 0) as [?|_]; [lia|].
  destruct (Z.ltb_spec numMsgs 0) as [?|_]; [lia|]. simpl.
  destruct Hbad as [Hmany|[-> ->]].
  - destruct (Z.eqb_spec numMsgs 1) as [?|_]; [lia|]. simpl. by eexists.
  - simpl. by eexists.
Qed.

(** X17. What is forwarded of a message is its payload up to the first
    NUL byte: for a payload of at most 1017 bytes before its first NUL
    (one that fits the buffer filled at line 330), every send of the pass
    carries that text and its length, and a payload without NUL is
    forwarded whole. *)
Theorem broadcast_forwards_payload_up_to_NUL w msg t' :
  ReceiveMessagesOnPollGroup (m_hPollGroup w) 1 (transport w)
    = ((1, Some msg), t') →
  is_Some (m_mapClients w !! m_conn msg) →
  CStr.strlen (m_pData msg) ≤ 1017 →
  ∃ w',
    PollIncomingMessages_body w = Ok Continue w' ∧
    Forall (λ sent, sent = (CStr.c_str (m_pData msg),
                            CStr.strlen (m_pData msg)))
      (send_payloads (drop (length (trace w)) (trace w'))) ∧
    has_NUL (CStr.c_str (m_pData msg)) = false ∧
    (has_NUL (m_pData msg) = false → CStr.c_str (m_pData msg) = m_pData msg).
Proof.
  intros Hrecv Hin Hfit.
  destruct (PollIncomingMessages_body_registered w msg t' Hrecv Hin Hfit)
    as (w' & Hrun & Htr & _).
  exists w'. split; [done|]. split.
  - rewrite Htr, drop_app_length, send_payloads_app. simpl.
    rewrite send_payloads_send_events. apply Forall_replicate.
    unfold CStr.strlen.
    by rewrite (CStrFacts.c_str_id (CStr.c_str (m_pData msg)))
      by apply CStrFacts.c_str_no_NUL.
  - split; [apply CStrFacts.c_str_no_NUL | apply CStrFacts.c_str_id].
Qed.

Lemma PollIncomingMessages_frame fuel w w' :
  PollIncomingMessages fuel w = Ok tt w' →
  same_memory w w' ∧
  ∃ evs, trace w' = trace w ++ evs ∧ Forall is_message_event evs.
Proof.
  revert w. induction fuel as [|fuel IH]; intros w; simpl.
  - destruct (g_bQuit w); [|done]. intros [= <-].
    split; [apply same_memory_refl|]. exists []. by rewrite app_nil_r.
  - destruct (g_bQuit w).
    { intros [= <-]. split; [apply same_memory_refl|].
      exists []. by rewrite app_nil_r. }
    unfold mbind, M_bind.
    destruct (PollIncomingMessages_body w) as [ctl w1| |] eqn:Hbody; [|done..].
    apply PollIncomingMessages_body_frame in Hbody
      as [Hmem1 (e1 & Ht1 & Hf1)].
    destruct ctl.
    + intros Hrest. apply IH in Hrest as [Hmem2 (e2 & Ht2 & Hf2)].
      split; [by eapply same_memory_trans|]. exists (e1 ++ e2).
      split; [by rewrite Ht2, Ht1, app_assoc | by apply Forall_app].
    + unfold mret, M_ret. intros [= <-]. eauto.
Qed.

(** X18. Draining the messages never changes the registry, the quit flag,
    the input queue or the two handles, and the only things it does are
    receiving, releasing, logging and sending: it accepts nothing and
    closes nothing. *)
Theorem PollIncomingMessages_only_receives_and_sends fuel w w' :
  PollIncomingMessages fuel w = Ok tt w' →
  same_memory w w' ∧
  Forall is_message_event (drop (length (trace w)) (trace w')) ∧
  accepted_open (trace w') = accepted_open (trace w) ∧
  in_poll_group (trace w') = in_poll_group (trace w).
Proof.
  intros Hrun.
  destruct (PollIncomingMessages_frame fuel w w' Hrun)
    as [Hmem (evs & Htr & Hevs)].
  split; [done|]. rewrite Htr, drop_app_length. split; [done|].
  clear Htr. revert Hevs. generalize (trace w) as tr.
  induction evs as [|e evs IH]; intros tr Hevs.
  - by rewrite app_nil_r.
  - apply Forall_cons in Hevs as [He Hevs].
    replace (tr ++ e :: evs) with ((tr ++ [e]) ++ evs)
      by (by rewrite <- app_assoc).
    destruct (IH (tr ++ [e]) Hevs) as [-> ->].
    rewrite accepted_open_snoc, in_poll_group_snoc. by destruct e.
Qed.

(** X19. With an [except] handle that is not registered, such as the
    default [k_HSteamNetConnection_Invalid] on a server that never
    registered handle 0, the text goes to every registered client. *)
Theorem SendStringToAllClients_without_exception str except w :
  m_mapClients w !! except = None →
  ∃ w',
    SendStringToAllClients str except w = Ok tt w' ∧
    send_targets (drop (length (trace w)) (trace w'))
      = map_keys_in_order (m_mapClients w) ∧
    length (send_targets (drop (length (trace w)) (trace w')))
      = size (m_mapClients w).
Proof.
  intros Hnone.
  destruct (SendStringToAllClients_run str except w) as (w' & Hrun & Htr & _).
  exists w'. split; [done|].
  assert (filter (λ c, c ≠ except) (map_keys_in_order (m_mapClients w))
          = map_keys_in_order (m_mapClients w)) as Hall.
  { apply filter_keeps_all. intros c Hc ->.
    apply elem_of_map_keys_in_order in Hc as [? Hc]. congruence. }
  rewrite Htr, drop_app_length, send_targets_send_events, Hall.
  split; [done | apply length_map_keys_in_order].
Qed.

End MoreMessages.

(** ** More on broadcasting and on status changes *)

Section MoreConnections.

Context {T : Type} `{iface : ISteamNetworkingSockets T}.
Implicit Types (w : @World T) (h : Z)
  (pInfo : SteamNetConnectionStatusChangedCallback_t).

(** X20. A broadcast always runs to its end, whatever the single sends
    return: the clients are tried once each in increasing handle order,
    and no program variable changes. *)
Theorem SendStringToAllClients_tries_everyone_in_order str except w :
  ∃ w',
    SendStringToAllClients str except w = Ok tt w' ∧
    send_targets (drop (length (trace w)) (trace w'))
      = filter (λ c, c ≠ except) (map_keys_in_order (m_mapClients w)) ∧
    StronglySorted Z.le (send_targets (drop (length (trace w)) (trace w'))) ∧
    NoDup (send_targets (drop (length (trace w)) (trace w'))) ∧
    same_memory w w'.
Proof.
  destruct (SendStringToAllClients_run str except w)
    as (w' & Hrun & Htr & Hmem).
  exists w'. split; [done|].
  rewrite Htr, drop_app_length, send_targets_send_events.
  split; [done|]. split; [|split; [|done]].
  - apply StronglySorted_filter_le, Sorted_StronglySorted; [apply _|].
    apply Sorted_map_keys_in_order.
  - apply NoDup_filter, NoDup_map_keys_in_order.
Qed.

(** X21. For the states None, Connected, FindingRoute, FinWait, Linger and
    Dead the status handler does nothing: no call, no log, no change. *)
Theorem OnSteamNetConnectionStatusChanged_ignores_other_states pInfo w :
  is_ignored_state (m_eState (m_info pInfo)) →
  OnSteamNetConnectionStatusChanged pInfo w = Ok tt w.
Proof.
  intros (H1 & H2 & H3). unfold OnSteamNetConnectionStatusChanged.
  by destruct (m_eState (m_info pInfo)).
Qed.

(** X22. A Connecting event for a new handle that the transport accepts
    and puts into the poll group registers the handle: the registry grows
    by this one record, the handle is accepted and in the poll group, no
    connection is closed, and the agreement of registry and accepted
    connections is kept. *)
Theorem OnConnecting_accepts_and_registers w pInfo t1 t2 :
  m_eState (m_info pInfo) = k_ESteamNetworkingConnectionState_Connecting →
  m_mapClients w !! m_hConn pInfo = None →
  AcceptConnection (m_hConn pInfo) (transport w) = (k_EResultOK, t1) →
  SetConnectionPollGroup (m_hConn pInfo) (m_hPollGroup w) t1 = (true, t2) →
  ∃ w',
    OnSteamNetConnectionStatusChanged pInfo w = Ok tt w' ∧
    m_mapClients w' = <[m_hConn pInfo := mkClient_t]> (m_mapClients w) ∧
    size (m_mapClients w') = S (size (m_mapClients w)) ∧
    trace w' = trace w
      ++ [EvPrintf "Connection request from %s"
            [ArgStr (m_szConnectionDescription (m_info pInfo))];
          EvAcceptConnection (m_hConn pInfo) k_EResultOK;
          EvSetConnectionPollGroup (m_hConn pInfo) (m_hPollGroup w) true] ∧
    m_hConn pInfo ∈ accepted_open (trace w') ∧
    m_hConn pInfo ∈ in_poll_group (trace w') ∧
    (registry_agrees w → registry_agrees w').
Proof.
  intros Hst Hnew Hacc Hpoll.
  destruct (OnConnecting_run w pInfo _ _ _ _ Hst Hnew Hacc Hpoll)
    as (w' & Hrun & Hmap & Htr & _).
  exists w'. split; [done|]. split; [done|]. split.
  { rewrite Hmap. by apply map_size_insert_None. }
  split; [exact Htr|]. rewrite Htr, accepted_open_app, in_poll_group_app.
  simpl. split; [|split].
  - apply elem_of_union_r. by apply elem_of_singleton.
  - apply elem_of_union_r. by apply elem_of_singleton.
  - unfold registry_agrees. rewrite Hmap, Htr, accepted_open_app. simpl.
    intros Hagree h'. specialize (Hagree h'). rewrite dom_insert_L.
    set_unfold. tauto.
Qed.

(** X23. The handler's own assertions: a Connecting event for a handle
    that is already registered, a closed event for a Connected connection
    that is not registered, and a closed event from any old state other
    than Connected and Connecting stop the run at the assertion, before
    any call is made; in particular the connection is not closed. *)
Theorem OnSteamNetConnectionStatusChanged_assertions pInfo w :
  (m_eState (m_info pInfo) = k_ESteamNetworkingConnectionState_Connecting ∧
   is_Some (m_mapClients w !! m_hConn pInfo)) ∨
  (is_closed_state (m_eState (m_info pInfo)) ∧
   m_eOldState pInfo = k_ESteamNetworkingConnectionState_Connected ∧
   m_mapClients w !! m_hConn pInfo = None) ∨
  (is_closed_state (m_eState (m_info pInfo)) ∧
   m_eOldState pInfo ≠ k_ESteamNetworkingConnectionState_Connected ∧
   m_eOldState pInfo ≠ k_ESteamNetworkingConnectionState_Connecting) →
  OnSteamNetConnectionStatusChanged pInfo w = Stop AssertionFailed w.
Proof.
  intros [[Hst Hknown]|[(Hst & Hold & Hnone)|(Hst & Hold1 & Hold2)]].
  - by apply OnConnecting_known_handle.
  - apply OnClosed_assertions; auto.
  - apply OnClosed_assertions; auto.
Qed.

(** X24. The record left behind by a refused connection makes the server
    stop when the transport hands out the same handle again: the next
    Connecting event for it fails the assertion that the handle is new. *)
Theorem refused_handle_fails_assertion_when_reused
    w pInfo pAgain res t1 ok t2 :
  m_eState (m_info pInfo) = k_ESteamNetworkingConnectionState_Connecting →
  m_mapClients w !! m_hConn pInfo = None →
  AcceptConnection (m_hConn pInfo) (transport w) = (res, t1) →
  SetConnectionPollGroup (m_hConn pInfo) (m_hPollGroup w) t1 = (ok, t2) →
  EResult_is_OK res = false ∨ ok = false →
  m_eState (m_info pAgain) = k_ESteamNetworkingConnectionState_Connecting →
  m_hConn pAgain = m_hConn pInfo →
  ∃ w',
    OnSteamNetConnectionStatusChanged pInfo w = Ok tt w' ∧
    (m_hConn pInfo ∉ accepted_open (trace w')) ∧
    OnSteamNetConnectionStatusChanged pAgain w' = Stop AssertionFailed w'.
Proof.
  intros Hst Hnew Hacc Hpoll Hfail Hst2 Hsame.
  destruct (OnConnecting_run w pInfo res t1 ok t2 Hst Hnew Hacc Hpoll)
    as (w' & Hrun & Hmap & Htr & _).
  exists w'. split; [done|]. split.
  - rewrite Htr, accepted_open_app. unfold connecting_events.
    destruct res as [|code]; simpl.
    + destruct Hfail as [?| ->]; [done|]. simpl.
      rewrite elem_of_difference, elem_of_singleton. tauto.
    + rewrite elem_of_difference, elem_of_singleton. tauto.
  - apply OnConnecting_known_handle; [done|].
    rewrite Hsame, Hmap, lookup_insert_eq. by eexists.
Qed.

End MoreConnections.

(** ** What holds in every reachable state, and at shutdown *)

Lemma connections_kept (tr evs : list Event) :
  Forall keeps_connections evs →
  accepted_open (tr ++ evs) = accepted_open tr ∧
  in_poll_group (tr ++ evs) = in_poll_group tr.
Proof.
  intros Hevs. revert tr. induction Hevs as [|e evs He _ IH]; intros tr.
  - by rewrite app_nil_r.
  - replace (tr ++ e :: evs) with ((tr ++ [e]) ++ evs)
      by (by rewrite <- app_assoc).
    destruct (IH (tr ++ [e])) as [-> ->].
    rewrite accepted_open_snoc, in_poll_group_snoc. by destruct e.
Qed.

Lemma message_event_keeps_connections (e : Event) :
  is_message_event e → keeps_connections e.
Proof. by destruct e. Qed.

Lemma shutdown_events_close (tr : list Event) (l : list Z) :
  accepted_open (tr ++ flat_map shutdown_events l)
    = accepted_open tr ∖ list_to_set l ∧
  in_poll_group (tr ++ flat_map shutdown_events l)
    = in_poll_group tr ∖ list_to_set l.
Proof.
  revert tr. induction l as [|h l IH]; intros tr.
  - simpl. rewrite app_nil_r. split; apply set_eq; intros x; set_unfold; tauto.
  - cbn [flat_map]. rewrite (assoc_L (++) tr (shutdown_events h)).
    destruct (IH (tr ++ shutdown_events h)) as [-> ->].
    rewrite accepted_open_app, in_poll_group_app. simpl.
    split; apply set_eq; intros x; set_unfold; tauto.
Qed.

Section MoreReachability.

Context {T : Type} `{iface : ISteamNetworkingSockets T}.
Implicit Types (w : @World T) (h : Z)
  (pInfo : SteamNetConnectionStatusChangedCallback_t).

(** The three ways in which the status handler returns.  A closed event
    it returns from is one for a connection that was still Connecting. *)
Lemma OnSteamNetConnectionStatusChanged_inv pInfo w w' :
  OnSteamNetConnectionStatusChanged pInfo w = Ok tt w' →
  (is_ignored_state (m_eState (m_info pInfo)) ∧ w' = w) ∨
  (m_mapClients w !! m_hConn pInfo = None ∧
   ∃ res ok,
     m_mapClients w' = <[m_hConn pInfo := mkClient_t]> (m_mapClients w) ∧
     trace w' = trace w
       ++ connecting_events (m_szConnectionDescription (m_info pInfo))
            (m_hConn pInfo) (m_hPollGroup w) res ok ∧
     g_bQuit w' = g_bQuit w ∧ queueUserInput w' = queueUserInput w ∧
     m_hListenSock w' = m_hListenSock w ∧ m_hPollGroup w' = m_hPollGroup w) ∨
  (m_mapClients w' = m_mapClients w ∧
   trace w' = trace w ++ closed_events pInfo ∧
   g_bQuit w' = g_bQuit w ∧ queueUserInput w' = queueUserInput w ∧
   m_hListenSock w' = m_hListenSock w ∧ m_hPollGroup w' = m_hPollGroup w).
Proof.
  intros Hrun.
  assert (∀ st, is_closed_state st → m_eState (m_info pInfo) = st →
          ∃ w2, OnSteamNetConnectionStatusChanged pInfo w = Ok tt w2 ∧
            m_mapClients w2 = m_mapClients w ∧
            trace w2 = trace w ++ closed_events pInfo ∧
            g_bQuit w2 = g_bQuit w ∧ queueUserInput w2 = queueUserInput w ∧
            m_hListenSock w2 = m_hListenSock w ∧
            m_hPollGroup w2 = m_hPollGroup w) as Hclosed.
  { intros st Hcl Hst. rewrite <- Hst in Hcl. apply OnClosed_run; [done|].
    destruct (decide (m_eOldState pInfo
                      = k_ESteamNetworkingConnectionState_Connected)) as [Ho|Ho].
    - destruct (m_mapClients w !! m_hConn pInfo) as [c|] eqn:Hc.
      + rewrite OnClosed_connected_undefined in Hrun by eauto. done.
      + rewrite OnClosed_assertions in Hrun by auto. done.
    - destruct (decide (m_eOldState pInfo
                        = k_ESteamNetworkingConnectionState_Connecting));
        [done|].
      rewrite OnClosed_assertions in Hrun by auto. done. }
  destruct (m_eState (m_info pInfo)) eqn:Hst;
    try (left; split; [by repeat split|];
         unfold OnSteamNetConnectionStatusChanged in Hrun;
         rewrite Hst in Hrun; by injection Hrun as <-).
  - right. left.
    destruct (m_mapClients w !! m_hConn pInfo) as [c|] eqn:Hc.
    { by rewrite OnConnecting_known_handle in Hrun. }
    split; [done|].
    destruct (AcceptConnection (m_hConn pInfo) (transport w))
      as [res t1] eqn:Hacc.
    destruct (SetConnectionPollGroup (m_hConn pInfo) (m_hPollGroup w) t1)
      as [ok t2] eqn:Hpoll.
    destruct (OnConnecting_run w pInfo res t1 ok t2 Hst Hc Hacc Hpoll)
      as (w2 & Hrun2 & Hfacts).
    rewrite Hrun2 in Hrun. injection Hrun as <-. by exists res, ok.
  - right. right.
    destruct (Hclosed _ (or_introl eq_refl) eq_refl) as (w2 & Hrun2 & Hfacts).
    rewrite Hrun2 in Hrun. by injection Hrun as <-.
  - right. right.
    destruct (Hclosed _ (or_intror eq_refl) eq_refl) as (w2 & Hrun2 & Hfacts).
    rewrite Hrun2 in Hrun. by injection Hrun as <-.
Qed.

(** X26. The status handler is local to its connection: it never changes
    the quit flag, the input queue or the two handles, it leaves the
    records of all other handles as they are, and it accepts, assigns and
    closes no connection but the one of the event. *)
Theorem OnSteamNetConnectionStatusChanged_is_local pInfo w w' :
  OnSteamNetConnectionStatusChanged pInfo w = Ok tt w' →
  g_bQuit w' = g_bQuit w ∧ queueUserInput w' = queueUserInput w ∧
  m_hListenSock w' = m_hListenSock w ∧ m_hPollGroup w' = m_hPollGroup w ∧
  ∀ h, h ≠ m_hConn pInfo →
    m_mapClients w' !! h = m_mapClients w !! h ∧
    (h ∈ accepted_open (trace w') ↔ h ∈ accepted_open (trace w)) ∧
    (h ∈ in_poll_group (trace w') ↔ h ∈ in_poll_group (trace w)).
Proof.
  intros Hrun.
  destruct (OnSteamNetConnectionStatusChanged_inv pInfo w w' Hrun)
    as [[_ ->]|[(_ & res & ok & Hmap & Htr & Hq & Hqueue & Hls & Hpg)
               |(Hmap & Htr & Hq & Hqueue & Hls & Hpg)]].
  - by repeat split.
  - repeat (split; [done|]). intros h Hh.
    rewrite Hmap, Htr, accepted_open_app, in_poll_group_app.
    rewrite lookup_insert_ne by done. split; [done|].
    unfold connecting_events. destruct res, ok; simpl; set_unfold; tauto.
  - repeat (split; [done|]). intros h Hh.
    rewrite Hmap, Htr, accepted_open_app, in_poll_group_app.
    unfold closed_events. simpl. split; [done|]. set_unfold; tauto.
Qed.

Lemma OnSteamNetConnectionStatusChanged_accepted pInfo w w' :
  OnSteamNetConnectionStatusChanged pInfo w = Ok tt w' →
  accepted_registered w → accepted_registered w'.
Proof.
  intros Hrun Hinv. unfold accepted_registered in *.
  destruct (OnSteamNetConnectionStatusChanged_inv pInfo w w' Hrun)
    as [[_ ->]|[(_ & res & ok & Hmap & Htr & _)|(Hmap & Htr & _)]]; [done|..].
  - rewrite Hmap, Htr, accepted_open_app, dom_insert_L.
    unfold connecting_events.
    destruct res, ok; simpl; intros x; specialize (Hinv x); set_unfold; tauto.
  - rewrite Hmap, Htr, accepted_open_app. unfold closed_events. simpl.
    intros x; specialize (Hinv x); set_unfold; tauto.
Qed.

Lemma calm_step_accepted w w' :
  calm_step w w' → accepted_registered w → accepted_registered w'.
Proof.
  intros [Hm (evs & Ht & Hf)]. unfold accepted_registered.
  destruct (connections_kept (trace w) evs Hf) as [Hacc _].
  by rewrite Hm, Ht, Hacc.
Qed.

Lemma calm_step_prints w w' :
  m_mapClients w' = m_mapClients w →
  (∃ evs, trace w' = trace w ++ evs ∧ Forall is_print evs) →
  calm_step w w'.
Proof.
  intros Hm (evs & Ht & Hf). split; [done|]. exists evs. split; [done|].
  eapply Forall_impl; [exact Hf|]. by intros [].
Qed.

Lemma PollLocalUserInput_loop_prints fuel cmd w w' :
  PollLocalUserInput_loop fuel cmd w = Ok tt w' →
  m_mapClients w' = m_mapClients w ∧
  ∃ evs, trace w' = trace w ++ evs ∧ Forall is_print evs.
Proof.
  revert cmd w. induction fuel as [|fuel IH]; intros cmd w.
  - simpl. destruct (g_bQuit w); [|done]. intros [= <-].
    split; [done|]. exists []. by rewrite app_nil_r.
  - destruct (g_bQuit w) eqn:Hq.
    { simpl. rewrite Hq. intros [= <-]. split; [done|].
      exists []. by rewrite app_nil_r. }
    rewrite PollLocalUserInput_loop_step by done.
    destruct (GetNext_loop _ _) as [[[] cmd'] q'].
    + destruct (CStr.strcmp cmd' "/quit" =? 0).
      * intros [= <-]. split; [done|]. eexists [_]. split; [done|].
        by repeat constructor.
      * intros Hrest. apply IH in Hrest as [Hm (evs & Ht & Hf)].
        split; [done|]. eexists (_ :: evs). split.
        -- rewrite Ht. simpl. by rewrite <- app_assoc.
        -- by constructor.
    + intros [= <-]. split; [done|]. exists []. simpl. by rewrite app_nil_r.
Qed.

Lemma server_step_accepted w w' :
  server_step w w' → accepted_registered w → accepted_registered w'.
Proof.
  intros [nPort w1 w2 H|fuel w1 w2 H|w1 w2 H|w1 w2 H|stdin w1 w2 H].
  - apply calm_step_accepted. revert H. unfold Run_listen. run.
    destruct (CreateListenSocketIP _ _) as [ls t1]. simpl.
    destruct (ls =? _); simpl; [done|].
    destruct (CreatePollGroup _) as [pg t2]. simpl.
    destruct (pg =? _); simpl; [done|].
    intros [= <-]. split; [done|]. eexists [_; _; _]. split.
    + simpl. by rewrite <- !app_assoc.
    + by repeat constructor.
  - apply calm_step_accepted.
    destruct (PollIncomingMessages_frame fuel w1 w2 H)
      as [Hmem (evs & Ht & Hf)].
    split; [apply Hmem|]. exists evs. split; [done|].
    eapply Forall_impl; [exact Hf|]. apply message_event_keeps_connections.
  - revert H. unfold PollConnectionStateChanges. run.
    destruct (RunCallbacks (transport w1)) as [pending t1]. simpl.
    intros Hrun Hinv.
    assert (accepted_registered
              (log (EvRunCallbacks (length pending)) (set_transport t1 w1)))
      as Hinv1.
    { eapply calm_step_accepted; [|exact Hinv].
      split; [done|]. eexists [_]. split; [done|]. by repeat constructor. }
    clear Hinv. revert Hrun Hinv1.
    generalize (log (EvRunCallbacks (length pending)) (set_transport t1 w1)).
    induction pending as [|pInfo pending IH]; intros w0; simpl.
    + unfold mret, M_ret. by intros [= <-].
    + unfold mbind, M_bind.
      destruct (OnSteamNetConnectionStatusChanged pInfo w0)
        as [[] w3| |] eqn:Hone; [|done..].
      intros Hrest Hinv0. eapply IH; [exact Hrest|].
      by eapply OnSteamNetConnectionStatusChanged_accepted.
  - apply calm_step_accepted.
    apply PollLocalUserInput_loop_prints in H as [Hm Hevs].
    by apply calm_step_prints.
  - apply calm_step_accepted.
    destruct (g_bQuit w1) eqn:Hq.
    + destruct stdin; simpl in H; rewrite Hq in H; injection H as <-;
        (split; [done|]; exists []; by rewrite app_nil_r).
    + rewrite LocalUserInput_thread_at_failure in H by done.
      injection H as <-. split; [done|]. eexists [_]. split; [done|].
      by repeat constructor.
Qed.

(** X27. In every reachable state, whatever the server has accepted and
    not closed has a record in the registry: no accepted connection goes
    unregistered. *)
Theorem reachable_accepted_registered w :
  reachable w → accepted_registered w.
Proof.
  induction 1 as [w Hm Ht|w w' _ IH Hstep].
  - unfold accepted_registered. rewrite Ht. apply empty_subseteq.
  - by eapply server_step_accepted.
Qed.

(** X28. Shutdown leaves no connection behind: started in a state where
    the accepted connections and the poll-group members are registered
    (every reachable state is one), [Run_shutdown] ends with every
    accepted connection closed, the poll group empty and the registry
    empty. *)
Theorem Run_shutdown_closes_every_connection w :
  accepted_registered w → senders_registered w →
  ∃ w',
    Run_shutdown w = Ok tt w' ∧
    accepted_open (trace w') = ∅ ∧
    in_poll_group (trace w') = ∅ ∧
    m_mapClients w' = ∅ ∧
    registry_agrees w'.
Proof.
  intros Hacc Hsend.
  destruct (Run_shutdown_run w) as (w' & Hrun & Htr & Hmap & _).
  exists w'. split; [done|].
  assert (accepted_open (trace w') = ∅ ∧ in_poll_group (trace w') = ∅)
    as [Ha Hp].
  { rewrite Htr, !(assoc_L (++)).
    destruct (connections_kept
                ((trace w ++ [EvPrintf (nl "Closing connections...") []])
                 ++ flat_map shutdown_events
                      (map_keys_in_order (m_mapClients w)))
                [EvCloseListenSocket (m_hListenSock w);
                 EvDestroyPollGroup (m_hPollGroup w)]) as [-> ->];
      [by repeat constructor|].
    destruct (shutdown_events_close
                (trace w ++ [EvPrintf (nl "Closing connections...") []])
                (map_keys_in_order (m_mapClients w))) as [-> ->].
    rewrite accepted_open_snoc, in_poll_group_snoc. simpl.
    unfold accepted_registered, senders_registered in *.
    split; apply set_eq; intros x; specialize (Hacc x); specialize (Hsend x);
      rewrite elem_of_dom in Hacc, Hsend;
      pose proof (elem_of_map_keys_in_order (m_mapClients w) x);
      set_unfold; tauto. }
  split; [done|]. split; [done|]. split; [done|].
  intros h Hh. rewrite Hmap, dom_empty_L in Hh. by apply not_elem_of_empty in Hh.
Qed.

End MoreReachability.

(** ** The tick in which the operator quits *)

Section MoreRun.

Context {T : Type} `{iface : ISteamNetworkingSockets T}.
Implicit Types (w : @World T).

Lemma for_each_status_keeps_console
    (l : list SteamNetConnectionStatusChangedCallback_t) w w' :
  for_each l OnSteamNetConnectionStatusChanged w = Ok tt w' →
  g_bQuit w' = g_bQuit w ∧ queueUserInput w' = queueUserInput w.
Proof.
  revert w. induction l as [|pInfo l IH]; intros w; simpl.
  - unfold mret, M_ret. by intros [= <-].
  - unfold mbind, M_bind.
    destruct (OnSteamNetConnectionStatusChanged pInfo w)
      as [[] w1| |] eqn:Hone; [|done..].
    apply OnSteamNetConnectionStatusChanged_inv in Hone.
    intros Hrest. apply IH in Hrest as [-> ->].
    destruct Hone as [[_ ->]|[(_ & res & ok & _ & _ & Hq & Hqueue & _)
                             |(_ & _ & Hq & Hqueue & _)]]; done.
Qed.

Lemma PollConnectionStateChanges_keeps_console w w' :
  PollConnectionStateChanges w = Ok tt w' →
  g_bQuit w' = g_bQuit w ∧ queueUserInput w' = queueUserInput w.
Proof.
  unfold PollConnectionStateChanges. run.
  destruct (RunCallbacks (transport w)) as [pending t1]. simpl.
  intros Hrun. by apply for_each_status_keeps_console in Hrun as [-> ->].
Qed.

(** X29. A quit directive is served in the tick that finds it queued:
    once that tick's message and callback polls are through, the console
    poll answers the lines before the directive, sets the quit flag and
    logs the shutdown, the tick sleeps its 10 ms, and the loop of [Run]
    returns without polling again. *)
Theorem quit_is_served_within_one_tick fuel w w1 w2 before quit after :
  g_bQuit w = false →
  PollIncomingMessages (S fuel) w = Ok tt w1 →
  PollConnectionStateChanges w1 = Ok tt w2 →
  delivered (queueUserInput w) = before ++ quit :: after →
  Forall (λ cmd, is_quit cmd = false) before →
  is_quit quit = true →
  ∃ w',
    Run_loop (S fuel) w = Ok tt w' ∧
    g_bQuit w' = true ∧
    trace w' = trace w2 ++ replicate (length before) unknown_command
                 ++ [EvPrintf "Shutting down server" []; EvSleep 10] ∧
    m_mapClients w' = m_mapClients w2 ∧
    delivered (queueUserInput w') = after.
Proof.
  intros Hq Hmsgs Hcbs Hd Hbefore Hquit.
  destruct (PollIncomingMessages_frame _ _ _ Hmsgs)
    as [(Hq1 & Hqueue1 & _) _].
  destruct (PollConnectionStateChanges_keeps_console _ _ Hcbs)
    as [Hq2 Hqueue2].
  destruct (PollLocalUserInput_loop_first_quit
              (S (length (queueUserInput w2))) EmptyString w2
              before quit after)
    as (w3 & Hrun & Hq3 & Hd3 & Htr3 & Hmap3 & _);
    [lia | congruence | congruence | done | done |].
  cbn [Run_loop]. rewrite Hq. unfold mbind at 1, M_bind at 1. rewrite Hmsgs.
  unfold mbind at 1, M_bind at 1. rewrite Hcbs.
  unfold mbind at 1, M_bind at 1. unfold PollLocalUserInput at 1.
  rewrite Hrun. unfold mbind, M_bind, modify.
  eexists. split.
  { destruct fuel; simpl; by rewrite Hq3. }
  simpl. split; [done|]. split; [|done].
  rewrite Htr3. by rewrite <- !app_assoc.
Qed.

End MoreRun.

(** * The further properties on concrete runs *)


Lemma GetNext_without_input_clobbers_result_witness :
  LocalUserInput_GetNext "old" (MoreRuns.typed [nl "  "; "   "%string])
  = Ok (false, EmptyString) (MoreRuns.typed []).
Proof.
  apply (GetNext_without_input_clobbers_result "old"
           (MoreRuns.typed [nl "  "; "   "%string])).
  by repeat constructor.
Defined.

Lemma PollLocalUserInput_without_quit_witness :
  ∃ w',
    PollLocalUserInput (MoreRuns.typed [nl "/foo"; nl "  "; nl " bar"])
      = Ok tt w' ∧
    trace w' = [unknown_command; unknown_command] ∧
    queueUserInput w' = [].
Proof.
  destruct (PollLocalUserInput_without_quit
              (MoreRuns.typed [nl "/foo"; nl "  "; nl " bar"]))
    as (w' & Hrun & _ & Hqueue & Htr & _);
    [reflexivity | vm_compute; by repeat constructor |].
  exists w'. split; [exact Hrun|]. split; [exact Htr | exact Hqueue].
Defined.

Lemma PollLocalUserInput_stops_at_first_quit_witness :
  ∃ w',
    PollLocalUserInput
      (MoreRuns.typed [nl "/foo"; nl " /quit "; nl "later"; nl "/quit"])
      = Ok tt w' ∧
    g_bQuit w' = true ∧
    delivered (queueUserInput w') = ["later"%string; "/quit"%string] ∧
    trace w' = [unknown_command; EvPrintf "Shutting down server" []].
Proof.
  destruct (PollLocalUserInput_stops_at_first_quit
              (MoreRuns.typed [nl "/foo"; nl " /quit "; nl "later"; nl "/quit"])
              ["/foo"%string] "/quit" ["later"%string; "/quit"%string])
    as (w' & Hrun & Hq & Hd & Htr & _);
    [reflexivity | reflexivity | by repeat constructor | reflexivity |].
  exists w'. by repeat split.
Defined.

Lemma LocalUserInput_thread_reads_until_failure_witness :
  ∃ w',
    LocalUserInput_thread [nl "/foo"; MoreRuns.with_NUL.(m_pData)]
      (MoreRuns.typed [nl "first"]) = Ok tt w' ∧
    queueUserInput w' = [nl "first"; nl "/foo"; "ab"%string] ∧
    g_bQuit w' = true.
Proof.
  destruct (LocalUserInput_thread_reads_until_failure
              [nl "/foo"; MoreRuns.with_NUL.(m_pData)]
              (MoreRuns.typed [nl "first"])) as [Hrun _]; [reflexivity|].
  eexists. split; [exact Hrun|]. by split.
Defined.

Lemma lines_queued_at_read_failure_stay_queued_witness :
  ∃ w',
    (LocalUserInput_thread [nl "/foo"] ;; PollLocalUserInput)
      (MoreRuns.typed []) = Ok tt w' ∧
    queueUserInput w' = [nl "/foo"] ∧
    trace w' = [EvPrintf (nl "Failed to read on stdin, quitting") []].
Proof.
  destruct (lines_queued_at_read_failure_stay_queued [nl "/foo"]
              (MoreRuns.typed []))
    as (w' & Hboth & Hrun & Hqueue & _); [reflexivity|].
  exists w'. split; [exact Hboth|]. split; [exact Hqueue|].
  by injection Hrun as <-.
Defined.

Lemma PollIncomingMessages_without_messages_witness :
  ∃ w',
    PollIncomingMessages 1 (MoreRuns.typed []) = Ok tt w' ∧
    trace w' = [EvReceiveMessagesOnPollGroup 1 1 0 None].
Proof.
  destruct (PollIncomingMessages_without_messages 0 (MoreRuns.typed [])
              None Scripted.quiet)
    as (w' & Hrun & Htr & _); [reflexivity | reflexivity |].
  by exists w'.
Defined.

Lemma PollIncomingMessages_asserts_one_message_witness :
  ∃ w',
    PollIncomingMessages_body
      (Scripted.world MoreRuns.two_at_once Runs.three_clients [])
    = Stop AssertionFailed w' ∧
    trace w' = [EvReceiveMessagesOnPollGroup 1 1 2 (Some Runs.hello)].
Proof.
  apply (PollIncomingMessages_asserts_one_message
           (Scripted.world MoreRuns.two_at_once Runs.three_clients [])
           2 (Some Runs.hello) Scripted.quiet); [reflexivity | left; lia].
Defined.

Lemma broadcast_forwards_payload_up_to_NUL_witness :
  ∃ w',
    PollIncomingMessages_body MoreRuns.binary_sender = Ok Continue w' ∧
    send_payloads (trace w') = [("ab"%string, 2); ("ab"%string, 2)].
Proof.
  destruct (broadcast_forwards_payload_up_to_NUL MoreRuns.binary_sender
              MoreRuns.with_NUL Scripted.quiet)
    as (w' & Hrun & _); [reflexivity | by eexists | by vm_compute |].
  exists w'. split; [exact Hrun|].
  by injection Hrun as <-.
Defined.

Lemma broadcast_reaches_all_but_sender_witness :
  (∃ w',
     PollIncomingMessages_body Runs.chatting = Ok Continue w' ∧
     send_targets (drop 2 (trace w')) = [2; 3]) ∧
  (∃ w',
     PollIncomingMessages_body MoreRuns.just_fitting = Ok Continue w' ∧
     send_targets (drop 2 (trace w')) = [2; 3]).
Proof.
  split.
  - destruct (broadcast_reaches_all_but_sender Runs.chatting Runs.hello
                (Scripted.mkScript 1 1 [] [] [] []) 2)
      as (w' & sent & Hrun & Hsent & Heq & _);
      [reflexivity | by eexists | reflexivity | by vm_compute |].
    exists w'. split; [exact Hrun|]. simpl in Hsent. rewrite Hsent, Heq.
    reflexivity.
  - destruct (broadcast_reaches_all_but_sender MoreRuns.just_fitting
                MoreRuns.longest_message
                (Scripted.mkScript 1 1 [] [] [] []) 2)
      as (w' & sent & Hrun & Hsent & Heq & _);
      [reflexivity | by eexists | reflexivity | by vm_compute |].
    exists w'. split; [exact Hrun|]. simpl in Hsent. rewrite Hsent, Heq.
    reflexivity.
Defined.

Lemma PollIncomingMessages_only_receives_and_sends_witness :
  ∃ w',
    PollIncomingMessages 2 Runs.chatting = Ok tt w' ∧
    m_mapClients w' = Runs.three_clients ∧
    accepted_open (trace w') = accepted_open (trace Runs.chatting).
Proof.
  destruct (PollIncomingMessages 2 Runs.chatting) as [[] w'| |] eqn:Hrun;
    [|by vm_compute in Hrun..].
  destruct (PollIncomingMessages_only_receives_and_sends 2 Runs.chatting w'
              Hrun) as (Hmem & _ & Hacc & _).
  exists w'. split; [reflexivity|]. split; [apply Hmem | exact Hacc].
Defined.

Lemma SendStringToAllClients_without_exception_witness :
  ∃ w',
    SendStringToAllClients "hi" k_HSteamNetConnection_Invalid
      (MoreRuns.typed []) = Ok tt w' ∧
    send_targets (trace w') = [1; 2; 3].
Proof.
  destruct (SendStringToAllClients_without_exception "hi"
              k_HSteamNetConnection_Invalid (MoreRuns.typed []))
    as (w' & Hrun & Hsent & _); [reflexivity|].
  exists w'. split; [exact Hrun|]. exact Hsent.
Defined.

Lemma OnSteamNetConnectionStatusChanged_ignores_other_states_witness :
  OnSteamNetConnectionStatusChanged
    (Scripted.event 1 k_ESteamNetworkingConnectionState_Connected
       k_ESteamNetworkingConnectionState_Connecting)
    Runs.chatting = Ok tt Runs.chatting.
Proof.
  by apply (OnSteamNetConnectionStatusChanged_ignores_other_states
              (Scripted.event 1 k_ESteamNetworkingConnectionState_Connected
                 k_ESteamNetworkingConnectionState_Connecting)
              Runs.chatting).
Defined.

Lemma OnConnecting_accepts_and_registers_witness :
  ∃ w',
    OnSteamNetConnectionStatusChanged
      (Scripted.event 7 k_ESteamNetworkingConnectionState_Connecting
         k_ESteamNetworkingConnectionState_None)
      (MoreRuns.typed []) = Ok tt w' ∧
    size (m_mapClients w') = 4%nat ∧
    7 ∈ accepted_open (trace w') ∧
    7 ∈ in_poll_group (trace w').
Proof.
  destruct (OnConnecting_accepts_and_registers (MoreRuns.typed [])
              (Scripted.event 7 k_ESteamNetworkingConnectionState_Connecting
                 k_ESteamNetworkingConnectionState_None)
              Scripted.quiet Scripted.quiet)
    as (w' & Hrun & _ & Hsize & _ & Hacc & Hpoll & _);
    [reflexivity | reflexivity | reflexivity | reflexivity |].
  exists w'. split; [exact Hrun|]. split; [exact Hsize|]. by split.
Defined.

Lemma OnSteamNetConnectionStatusChanged_assertions_witness :
  OnSteamNetConnectionStatusChanged
    (Scripted.event 1 k_ESteamNetworkingConnectionState_Connecting
       k_ESteamNetworkingConnectionState_None)
    Runs.chatting = Stop AssertionFailed Runs.chatting ∧
  OnSteamNetConnectionStatusChanged
    (Scripted.event 9 k_ESteamNetworkingConnectionState_ClosedByPeer
       k_ESteamNetworkingConnectionState_Connected)
    Runs.chatting = Stop AssertionFailed Runs.chatting ∧
  OnSteamNetConnectionStatusChanged
    (Scripted.event 1 k_ESteamNetworkingConnectionState_ProblemDetectedLocally
       k_ESteamNetworkingConnectionState_FindingRoute)
    Runs.chatting = Stop AssertionFailed Runs.chatting.
Proof.
  split; [|split]; apply OnSteamNetConnectionStatusChanged_assertions.
  - left. split; [reflexivity | by eexists].
  - right. left. split; [by left|]. by split.
  - right. right. split; [by right|]. by split.
Defined.

Lemma refused_handle_fails_assertion_when_reused_witness :
  ∃ w',
    OnSteamNetConnectionStatusChanged
      (Scripted.event 7 k_ESteamNetworkingConnectionState_Connecting
         k_ESteamNetworkingConnectionState_None)
      (Scripted.world Runs.refusing ∅ []) = Ok tt w' ∧
    OnSteamNetConnectionStatusChanged
      (Scripted.event 7 k_ESteamNetworkingConnectionState_Connecting
         k_ESteamNetworkingConnectionState_None)
      w' = Stop AssertionFailed w'.
Proof.
  destruct (refused_handle_fails_assertion_when_reused
              (Scripted.world Runs.refusing ∅ [])
              (Scripted.event 7 k_ESteamNetworkingConnectionState_Connecting
                 k_ESteamNetworkingConnectionState_None)
              (Scripted.event 7 k_ESteamNetworkingConnectionState_Connecting
                 k_ESteamNetworkingConnectionState_None)
              (k_EResultOther 8) Runs.refusing true Runs.refusing)
    as (w' & Hrun & _ & Hagain);
    [reflexivity | reflexivity | reflexivity | reflexivity | by left
    | reflexivity | reflexivity |].
  by exists w'.
Defined.

Lemma OnSteamNetConnectionStatusChanged_is_local_witness :
  ∃ w',
    OnSteamNetConnectionStatusChanged
      (Scripted.event 7 k_ESteamNetworkingConnectionState_Connecting
         k_ESteamNetworkingConnectionState_None)
      (MoreRuns.typed []) = Ok tt w' ∧
    m_mapClients w' !! 2 = Some Runs.client ∧
    m_mapClients w' !! 3 = Some Runs.client.
Proof.
  destruct (OnSteamNetConnectionStatusChanged
              (Scripted.event 7 k_ESteamNetworkingConnectionState_Connecting
                 k_ESteamNetworkingConnectionState_None)
              (MoreRuns.typed [])) as [[] w'| |] eqn:Hrun;
    [|by vm_compute in Hrun..].
  destruct (OnSteamNetConnectionStatusChanged_is_local _ _ _ Hrun)
    as (_ & _ & _ & _ & Hothers).
  exists w'. split; [reflexivity|]. split.
  - by destruct (Hothers 2) as [-> _].
  - by destruct (Hothers 3) as [-> _].
Defined.

Lemma reachable_accepted_registered_witness :
  ∃ w' : @World Scripted.Script,
    PollConnectionStateChanges MoreRuns.greeting = Ok tt w' ∧
    7 ∈ accepted_open (trace w') ∧
    accepted_registered w'.
Proof.
  destruct (PollConnectionStateChanges MoreRuns.greeting)
    as [[] w'| |] eqn:Hrun; [|by vm_compute in Hrun..].
  exists w'. split; [reflexivity|]. split.
  - vm_compute in Hrun. injection Hrun as <-.
    apply (bool_decide_unpack _). by vm_compute.
  - apply reachable_accepted_registered.
    eapply reachable_step; [|by apply step_status].
    by apply reachable_start.
Defined.

Lemma Run_shutdown_closes_every_connection_witness :
  ∃ w',
    Run_shutdown Runs.chatting = Ok tt w' ∧
    accepted_open (trace w') = ∅ ∧
    m_mapClients w' = ∅.
Proof.
  destruct (Run_shutdown_closes_every_connection Runs.chatting)
    as (w' & Hrun & Hacc & _ & Hmap & _).
  - unfold accepted_registered. apply (bool_decide_unpack _). by vm_compute.
  - unfold senders_registered. apply (bool_decide_unpack _). by vm_compute.
  - by exists w'.
Defined.

Lemma quit_is_served_within_one_tick_witness :
  ∃ w',
    Run_loop 1 (MoreRuns.typed [nl "/foo"; nl "/quit"; nl "late"])
      = Ok tt w' ∧
    g_bQuit w' = true ∧
    trace w' = [EvReceiveMessagesOnPollGroup 1 1 0 None; EvRunCallbacks 0;
                unknown_command; EvPrintf "Shutting down server" [];
                EvSleep 10] ∧
    delivered (queueUserInput w') = ["late"%string].
Proof.
  destruct (quit_is_served_within_one_tick 0
              (MoreRuns.typed [nl "/foo"; nl "/quit"; nl "late"])
              (log (EvReceiveMessagesOnPollGroup 1 1 0 None)
                 (MoreRuns.typed [nl "/foo"; nl "/quit"; nl "late"]))
              (log (EvRunCallbacks 0)
                 (log (EvReceiveMessagesOnPollGroup 1 1 0 None)
                    (MoreRuns.typed [nl "/foo"; nl "/quit"; nl "late"])))
              ["/foo"%string] "/quit" ["late"%string])
    as (w' & Hrun & Hq & Htr & _ & Hd);
    [reflexivity | reflexivity | reflexivity | reflexivity
    | by repeat constructor | reflexivity |].
  exists w'. by repeat split.
Defined.
